(** * CSAT calculator: score, top-box percentage and t-based confidence intervals

    A shallow embedding of [csat_calculator.py].  The script reads five
    response counts, a confidence level and the number of surveys sent out,
    and prints the CSAT score, the CSAT percentage and their confidence
    intervals, without and with the finite population correction.

    Numbers are embedded as follows.
    - numpy [int64] values are integers of [Z].  The sidebar widgets only
      deliver integers between [0] and [2^53 - 1], for which no sum or
      product of the script leaves the 64-bit range ([int64_safe] below).
    - numpy [float64] values are elements of [float64]: a real number or one
      of the special values [+inf], [-inf], [nan].  Arithmetic on finite
      values is exact real arithmetic (the two zeros are one); the special
      values follow IEEE 754 as numpy applies it (division by zero yields an
      infinity or [nan], never an exception).  This model says which formula
      each line evaluates; it does not round.  Rounding to nearest keeps
      signs, non-strict order and the exact result of an operation whose
      operands and result are representable, and it can merge two results
      that differ over the reals.  Where a property of the returned numbers
      needs the integer sums to convert to [float64] without rounding, it
      carries the bound [exact_int_max].
    - Module [Binary64] evaluates the lines of parts 1 and 2 in binary64
      itself, on primitive floats; it is used on the concrete inputs for
      which the rounded result and the exact one differ in kind.
    - [scipy.stats.t] is not part of the repository.  Its wrapper code
      ([interval], [ppf]: argument checks, location and scale) is embedded
      below; the standard quantile routine itself is a parameter [t_ppf],
      and the theorems that need its values assume, for the quantiles they
      use, that it returns the quantile of Student's t distribution as
      defined in [Student].  [stats_t_ppf] is that routine as the
      specification describes it: the quantile function itself. *)

From Stdlib Require Import Reals Ranalysis5 ZArith List Lia Lra Psatz Bool.
From Stdlib Require Import Epsilon.
From Stdlib Require Floats.
Import ListNotations.

Local Open Scope Z_scope.
Local Open Scope R_scope.

(** ** numpy float64 values *)

Inductive float64 : Type :=
| Fin (x : R)
| PInf
| NInf
| NaN.

Definition is_nan (a : float64) : bool :=
  match a with NaN => true | _ => false end.

(** [float(z)] for an [int64] operand of a float operation. *)
Definition of_int (z : Z) : float64 := Fin (IZR z).

Definition fneg (a : float64) : float64 :=
  match a with
  | Fin x => Fin (- x)
  | PInf => NInf
  | NInf => PInf
  | NaN => NaN
  end.

Definition fadd (a b : float64) : float64 :=
  match a, b with
  | NaN, _ | _, NaN => NaN
  | Fin x, Fin y => Fin (x + y)
  | PInf, NInf | NInf, PInf => NaN
  | PInf, _ | _, PInf => PInf
  | NInf, _ | _, NInf => NInf
  end.

Definition fsub (a b : float64) : float64 := fadd a (fneg b).

(** An infinity with the sign of [x], or [nan] when [x] is zero. *)
Definition inf_signed (x : R) : float64 :=
  if Req_dec_T x 0 then NaN
  else if Rlt_dec 0 x then PInf else NInf.

Definition fmul (a b : float64) : float64 :=
  match a, b with
  | NaN, _ | _, NaN => NaN
  | Fin x, Fin y => Fin (x * y)
  | Fin x, PInf | PInf, Fin x => inf_signed x
  | Fin x, NInf | NInf, Fin x => inf_signed (- x)
  | PInf, PInf | NInf, NInf => PInf
  | PInf, NInf | NInf, PInf => NInf
  end.

Definition fdiv (a b : float64) : float64 :=
  match a, b with
  | NaN, _ | _, NaN => NaN
  | Fin x, Fin y => if Req_dec_T y 0 then inf_signed x else Fin (x / y)
  | Fin _, _ => Fin 0
  | PInf, Fin y => if Rlt_dec y 0 then NInf else PInf
  | NInf, Fin y => if Rlt_dec y 0 then PInf else NInf
  | _, _ => NaN
  end.

(** [np.sqrt]: [nan] on negative arguments. *)
Definition fsqrt (a : float64) : float64 :=
  match a with
  | Fin x => if Rlt_dec x 0 then NaN else Fin (sqrt x)
  | PInf => PInf
  | _ => NaN
  end.

(** [a ** 2] *)
Definition fsquare (a : float64) : float64 := fmul a a.

(** [a > b]; every comparison with [nan] is false. *)
Definition fgt (a b : float64) : bool :=
  match a, b with
  | NaN, _ | _, NaN => false
  | Fin x, Fin y => if Rlt_dec y x then true else false
  | PInf, PInf | NInf, NInf => false
  | PInf, _ | _, NInf => true
  | _, _ => false
  end.

(** [a <= b] *)
Definition fle (a b : float64) : bool :=
  match a, b with
  | NaN, _ | _, NaN => false
  | Fin x, Fin y => if Rle_dec x y then true else false
  | NInf, _ | _, PInf => true
  | _, _ => false
  end.

(** [a < b] *)
Definition flt (a b : float64) : bool := fgt b a.

(** Python's builtin [max(a, b)]: the first argument, unless the second is
    greater. *)
Definition py_max (a b : float64) : float64 :=
  if fgt b a then b else a.

(** ** Exceptions *)

Inductive exn : Type :=
| ValueError.

Inductive result (A : Type) : Type :=
| Ok (a : A)
| Raise (e : exn).
Arguments Ok {A} a.
Arguments Raise {A} e.

Definition bind {A B : Type} (m : result A) (k : A -> result B) : result B :=
  match m with
  | Ok a => k a
  | Raise e => Raise e
  end.

Notation "'let*' x ':=' m 'in' k" := (bind m (fun x => k))
  (at level 10, x pattern, m at level 100, k at level 200).

(** ** The survey table *)

Record row : Type := { rating : Z; count : Z }.

Definition n_level : nat := 5.

(** [pd.DataFrame({'rating': range(1, 6), 'count': survey_result})] *)
Definition df_survey (res_list : list Z) : list row :=
  map (fun rc => {| rating := fst rc; count := snd rc |})
      (combine (map Z.of_nat (seq 1 n_level)) res_list).

(** [.sum()] of an integer column. *)
Definition int_sum (col : list Z) : Z := fold_right Z.add 0%Z col.

(** [.sum()] of a float column: pandas skips [nan] entries. *)
Definition float_sum (col : list float64) : float64 :=
  fold_right fadd (Fin 0) (filter (fun a => negb (is_nan a)) col).

(** The sidebar delivers [n_level] counts, none negative ([min_value=0]). *)
Definition well_formed (res_list : list Z) : Prop :=
  length res_list = n_level /\ Forall (fun c => (0 <= c)%Z) res_list.

Definition well_formedb (res_list : list Z) : bool :=
  Nat.eqb (length res_list) n_level && forallb (fun c => (0 <=? c)%Z) res_list.

(** ** Part 1: score and percentage *)

Definition rating_count_sum (df : list row) : Z :=
  int_sum (map (fun r => (rating r * count r)%Z) df).

Definition count_sum (df : list row) : Z := int_sum (map count df).

(** [df_survey.query('rating >= 4')['count'].sum()] *)
Definition top_box_sum (df : list row) : Z :=
  int_sum (map count (filter (fun r => (4 <=? rating r)%Z) df)).

Definition csat_score (df : list row) : float64 :=
  fdiv (of_int (rating_count_sum df)) (of_int (count_sum df)).

Definition csat_percent (df : list row) : float64 :=
  fdiv (of_int (top_box_sum df)) (of_int (count_sum df)).

(** ** Part 2: standard errors *)

Definition survey_count (df : list row) : Z := count_sum df.

Definition degrees_freedom (df : list row) : Z := (survey_count df - 1)%Z.

(** Column [diff2] of [df_survey_1]:
    [diff = rating - csat_score], [diff2 = diff ** 2 * count]. *)
Definition diff2 (df : list row) : list float64 :=
  map (fun r =>
         let diff := fsub (of_int (rating r)) (csat_score df) in
         fmul (fsquare diff) (of_int (count r)))
      df.

Definition std_sample (df : list row) : float64 :=
  fsqrt (fdiv (float_sum (diff2 df)) (of_int (degrees_freedom df))).

Definition std_csat_score (df : list row) : float64 :=
  fdiv (std_sample df) (fsqrt (of_int (survey_count df))).

Definition std_csat_percent (df : list row) : float64 :=
  fsqrt (fdiv (fmul (csat_percent df) (fsub (Fin 1) (csat_percent df)))
              (of_int (survey_count df))).

(** ** scipy.stats.t: [ppf] and [interval] around the quantile routine *)

Section Calculator.

(** [t_ppf q df]: the quantile routine of the standard t distribution
    ([scipy.stats.t._ppf]), called for [0 < q < 1] and [df > 0] only. *)
Variable t_ppf : R -> Z -> R.

(** [stats.t.ppf(q, df, loc, scale)], as [rv_continuous.ppf] computes it.
    The output starts as [nan] and is filled in only where the arguments
    pass the check [(df > 0) & (scale > 0) & (loc == loc)]: with the ends of
    the support, [-inf * scale + loc] and [inf * scale + loc], at [q = 0]
    and [q = 1], and with [_ppf(q, df) * scale + loc] for [0 < q < 1].  A
    scale of zero, a [nan] scale and non-positive degrees of freedom all
    give [nan]. *)
Definition ppf (q : R) (df : Z) (loc scale : float64) : float64 :=
  if (0 <? df)%Z && fgt scale (Fin 0) && negb (is_nan loc) then
    if Req_dec_T q 0 then fadd (fmul NInf scale) loc
    else if Req_dec_T q 1 then fadd (fmul PInf scale) loc
    else if Rlt_dec 0 q then
      if Rlt_dec q 1 then fadd (fmul (Fin (t_ppf q df)) scale) loc
      else NaN
    else NaN
  else NaN.

(** [stats.t.interval(confidence, df, loc, scale)]: a [ValueError] for a
    confidence outside [0, 1], otherwise the quantiles of orders
    [(1 - confidence) / 2] and [(1 + confidence) / 2]. *)
Definition interval (confidence : R) (df : Z) (loc scale : float64)
  : result (float64 * float64) :=
  if Rlt_dec 1 confidence then Raise ValueError
  else if Rlt_dec confidence 0 then Raise ValueError
  else
    let q1 := (1 - confidence) / 2 in
    let q2 := (1 + confidence) / 2 in
    Ok (ppf q1 df loc scale, ppf q2 df loc scale).

(** The pair of bounds that [interval] returns when it does not raise. *)
Definition ppf_pair (confidence : R) (df : Z) (loc scale : float64)
  : float64 * float64 :=
  (ppf ((1 - confidence) / 2) df loc scale,
   ppf ((1 + confidence) / 2) df loc scale).

(** ** Part 3: finite population correction *)

Definition fpc (df : list row) (survey_total : Z) : float64 :=
  fsqrt (fdiv (of_int (survey_total - survey_count df))
              (of_int (survey_total - 1))).

Definition default_zero : R := / 100000000.

(** ** The script *)

Record report : Type := {
  n_response : Z;
  score : float64;
  percent : float64;
  score_ci : float64 * float64;
  percent_ci : float64 * float64;
  score_ci_fpc : float64 * float64;
  percent_ci_fpc : float64 * float64
}.

Definition csat_calculator (res_list : list Z) (conf_level : R)
    (survey_total : Z) : result report :=
  let df := df_survey res_list in
  let* s_ci :=
    interval conf_level (degrees_freedom df) (csat_score df)
             (std_csat_score df) in
  let* p_ci :=
    interval conf_level (degrees_freedom df) (csat_percent df)
             (std_csat_percent df) in
  let* s_fpc :=
    interval conf_level (degrees_freedom df) (csat_score df)
             (fmul (std_csat_score df)
                   (py_max (fpc df survey_total) (Fin default_zero))) in
  let* p_fpc :=
    interval conf_level (degrees_freedom df) (csat_percent df)
             (fmul (std_csat_percent df)
                   (py_max (fpc df survey_total) (Fin default_zero))) in
  Ok {| n_response := survey_count df;
        score := csat_score df;
        percent := csat_percent df;
        score_ci := s_ci;
        percent_ci := p_ci;
        score_ci_fpc := s_fpc;
        percent_ci_fpc := p_fpc |}.

(** Width of an interval, [high - low]. *)
Definition width (ci : float64 * float64) : float64 :=
  fsub (snd ci) (fst ci).

End Calculator.

(** ** Student's t distribution

    The reference the quantile routine is measured against: the density of
    the t distribution with [nu] degrees of freedom,
    [Gamma((nu+1)/2) / (sqrt(nu pi) Gamma(nu/2)) * (1 + x^2/nu)^(-(nu+1)/2)],
    its distribution function through a primitive of the density (the
    density is even and has total mass one, so the distribution function is
    [1/2] at [0]), quantiles, and two-sided critical values. *)

Module Student.

(** [gamma_half n] is [Gamma (n / 2)], for [n >= 1]. *)
Fixpoint gamma_half (n : nat) : R :=
  match n with
  | O => 0
  | S O => sqrt PI
  | S (S O) => 1
  | S (S m) => INR m / 2 * gamma_half m
  end.

Definition t_pdf (nu : nat) (x : R) : R :=
  gamma_half (S nu) / (sqrt (INR nu * PI) * gamma_half nu)
  * Rpower (1 + x ^ 2 / INR nu) (- ((INR nu + 1) / 2)).

Definition is_primitive (F f : R -> R) : Prop :=
  forall x, derivable_pt_lim F x (f x).

(** [t_cdf nu t p]: the distribution function at [t] is [p]. *)
Definition t_cdf (nu : nat) (t p : R) : Prop :=
  exists F, is_primitive F (t_pdf nu) /\ p = 1 / 2 + (F t - F 0).

(** [t] is the quantile of order [q]. *)
Definition is_t_quantile (nu : nat) (q t : R) : Prop := t_cdf nu t q.

(** [t] is the two-sided critical value at confidence level [c]: the
    interval from [-t] to [t] has probability [c]. *)
Definition is_t_crit (nu : nat) (c t : R) : Prop :=
  0 <= t /\ exists F, is_primitive F (t_pdf nu) /\ F t - F (- t) = c.

(** The quantile routine returns true quantiles for the two calls that
    [interval] makes at confidence level [c] and [df] degrees of freedom. *)
Definition quantile_ok (t_ppf : R -> Z -> R) (c : R) (df : Z) : Prop :=
  is_t_quantile (Z.to_nat df) ((1 - c) / 2) (t_ppf ((1 - c) / 2) df) /\
  is_t_quantile (Z.to_nat df) ((1 + c) / 2) (t_ppf ((1 + c) / 2) df).

(** Closed forms used for reference values:
    a primitive of the density for two and for nine degrees of freedom. *)
Definition F2 (x : R) : R := x / (2 * sqrt (2 + x ^ 2)).

Definition R9 (x : R) : R :=
  3 * x / (9 + x ^ 2) + 18 * x / (9 + x ^ 2) ^ 2
  + 648 / 5 * x / (9 + x ^ 2) ^ 3 + 34992 / 35 * x / (9 + x ^ 2) ^ 4.

Definition F9 (x : R) : R := (atan (x / 3) + R9 x) / PI.

(** The quantile function for two degrees of freedom. *)
Definition quantile2 (q : R) : R := (2 * q - 1) / sqrt (2 * q * (1 - q)).

(** For every number of degrees of freedom: [cos_int n] is the primitive of
    [cos ^ n] that vanishes at 0, and [t_prim nu] the primitive of the
    density that vanishes at 0 (substitute [x = sqrt nu * tan theta]). *)
Fixpoint cos_int (n : nat) (x : R) : R :=
  match n with
  | O => x
  | S O => sin x
  | S (S m as p) => (cos x ^ p * sin x + INR p * cos_int m x) / INR (S p)
  end.

Definition t_prim (nu : nat) (x : R) : R :=
  gamma_half (S nu) / (sqrt PI * gamma_half nu)
  * cos_int (pred nu) (atan (x / sqrt (INR nu))).

(** The quantile of order [q]: the point at which the distribution function
    is [q].  For [nu >= 1] and [0 < q < 1] there is exactly one
    ([t_quantile_spec], [t_cdf_inj] below). *)
Definition t_quantile (nu : nat) (q : R) : R :=
  epsilon (inhabits 0) (fun t => is_t_quantile nu q t).

End Student.

(** Modelled from the spec: the quantile routine [_ppf] of [scipy.stats.t],
    a library the script imports and the repository does not contain.  The
    specification asks for "the quantile such that the two-sided interval
    covers the requested confidence level at the given degrees of freedom",
    through "a correct inverse-CDF (quantile function) of the t
    distribution": the routine is taken to be the quantile function of
    Student's t distribution. *)
Definition stats_t_ppf (q : R) (df : Z) : R :=
  Student.t_quantile (Z.to_nat df) q.

(** ** The formulas of the specification

    Written from the specification's sentences, over the reals, for
    comparison with what the script computes. *)

Module Spec.

Definition rsum (col : list R) : R := fold_right Rplus 0 col.

(** Total respondents: the sum of the counts. *)
Definition total (df : list row) : R :=
  rsum (map (fun r => IZR (count r)) df).

(** [score = sum(level_i * count_i) / sum(count_i)] *)
Definition score (df : list row) : R :=
  rsum (map (fun r => IZR (rating r) * IZR (count r)) df) / total df.

(** [percent = sum(count_i for level_i >= threshold) / sum(count_i)] *)
Definition percent (threshold : Z) (df : list row) : R :=
  rsum (map (fun r => IZR (count r))
            (filter (fun r => (threshold <=? rating r)%Z) df)) / total df.

(** Sample variance: [sum(count_i * (level_i - score)^2) / (N - 1)] *)
Definition variance (df : list row) : R :=
  rsum (map (fun r => IZR (count r) * (IZR (rating r) - score df) ^ 2) df)
  / (total df - 1).

Definition std (df : list row) : R := sqrt (variance df).

(** Standard error of the score: [std_sample / sqrt(N)] *)
Definition se_score (df : list row) : R := std df / sqrt (total df).

(** Standard error of the percent:
    [sqrt(percent * (1 - percent) / N)] *)
Definition se_percent (threshold : Z) (df : list row) : R :=
  sqrt (percent threshold df * (1 - percent threshold df) / total df).

End Spec.

(** A row of the table of a well-formed input. *)
Definition row_ok (r : row) : Prop :=
  (1 <= rating r <= 5)%Z /\ (0 <= count r)%Z.

(** ** Integer range

    [np.array(res_list)] holds 64-bit integers. *)
Definition int64_min : Z := (- 2 ^ 63)%Z.
Definition int64_max : Z := (2 ^ 63 - 1)%Z.
Definition in_int64 (z : Z) : Prop := (int64_min <= z <= int64_max)%Z.

(** The largest integer taken as a count or as the total. *)
Definition widget_max : Z := (2 ^ 53 - 1)%Z.

(** Every integer of magnitude up to [2^53] converts to [float64] without
    rounding; [2^53 + 1] does not. *)
Definition exact_int_max : Z := (2 ^ 53)%Z.

(** ** Parts 1 and 2 in binary64

    The same lines on IEEE 754 binary64 numbers, every operation rounded to
    nearest, ties to even, as numpy computes them. *)

Module Binary64.

Definition float64 : Set := PrimFloat.float.

(** [float(z)] for an [int64] operand [z], [|z| < 2^63]: the nearest
    binary64 number. *)
Definition of_int (z : Z) : float64 :=
  if (z <? 0)%Z then PrimFloat.opp (PrimFloat.of_uint63 (Uint63.of_Z (- z)))
  else PrimFloat.of_uint63 (Uint63.of_Z z).

(** [.sum()] of a float column, first entry first; [nan] entries are
    skipped. *)
Definition float_sum (col : list float64) : float64 :=
  fold_left
    (fun acc a => if PrimFloat.is_nan a then acc else PrimFloat.add acc a)
    col (of_int 0).

Definition csat_score (df : list row) : float64 :=
  PrimFloat.div (of_int (rating_count_sum df)) (of_int (count_sum df)).

Definition csat_percent (df : list row) : float64 :=
  PrimFloat.div (of_int (top_box_sum df)) (of_int (count_sum df)).

Definition diff2 (df : list row) : list float64 :=
  map (fun r =>
         let diff := PrimFloat.sub (of_int (rating r)) (csat_score df) in
         PrimFloat.mul (PrimFloat.mul diff diff) (of_int (count r)))
      df.

Definition std_sample (df : list row) : float64 :=
  PrimFloat.sqrt
    (PrimFloat.div (float_sum (diff2 df)) (of_int (degrees_freedom df))).

Definition std_csat_score (df : list row) : float64 :=
  PrimFloat.div (std_sample df) (PrimFloat.sqrt (of_int (survey_count df))).

Definition std_csat_percent (df : list row) : float64 :=
  PrimFloat.sqrt
    (PrimFloat.div
       (PrimFloat.mul (csat_percent df)
                      (PrimFloat.sub (of_int 1) (csat_percent df)))
       (of_int (survey_count df))).


End Binary64.

(** * Properties *)

Module StudentFacts.
Import Student.

Lemma gamma_half_pos (n : nat) : (1 <= n)%nat -> 0 < gamma_half n.
Proof.
  induction n as [n IH] using lt_wf_ind. intros Hn.
  destruct n as [|[|[|m]]]; try lia.
  - simpl. apply sqrt_lt_R0, PI_RGT_0.
  - simpl. lra.
  - change (gamma_half (S (S (S m)))) with (INR (S m) / 2 * gamma_half (S m)).
    apply Rmult_lt_0_compat.
    + assert (0 < INR (S m)) by (apply lt_0_INR; lia). lra.
    + apply IH; lia.
Qed.

Lemma t_pdf_pos (nu : nat) (x : R) : (1 <= nu)%nat -> 0 < t_pdf nu x.
Proof.
  intros Hnu. unfold t_pdf.
  assert (Hn : 0 < INR nu) by (apply lt_0_INR; lia).
  apply Rmult_lt_0_compat.
  - apply Rdiv_lt_0_compat.
    + apply gamma_half_pos; lia.
    + apply Rmult_lt_0_compat.
      * apply sqrt_lt_R0, Rmult_lt_0_compat; [exact Hn | apply PI_RGT_0].
      * apply gamma_half_pos; lia.
  - unfold Rpower. apply exp_pos.
Qed.

Lemma t_pdf_even (nu : nat) (x : R) : t_pdf nu (- x) = t_pdf nu x.
Proof.
  unfold t_pdf. replace ((- x) ^ 2) with (x ^ 2) by ring. reflexivity.
Qed.

(** Two primitives of one function differ by a constant. *)
Lemma primitive_diff (F G f : R -> R) (a b : R) :
  is_primitive F f -> is_primitive G f -> F b - F a = G b - G a.
Proof.
  intros HF HG.
  assert (main : forall u v, u < v -> F v - F u = G v - G u).
  { intros u v Huv.
    destruct (MVT_cor2 (fun x => F x - G x) (fun x => f x - f x) u v Huv)
      as [c [Hc _]].
    - intros c _. apply derivable_pt_lim_minus; [apply HF | apply HG].
    - replace (f c - f c) with 0 in Hc by ring. lra. }
  destruct (Rtotal_order a b) as [H | [H | H]].
  - apply main, H.
  - subst. ring.
  - specialize (main b a H). lra.
Qed.

(** A primitive of a positive function is strictly increasing. *)
Lemma primitive_increasing (F f : R -> R) (a b : R) :
  is_primitive F f -> (forall x, 0 < f x) -> a < b -> F a < F b.
Proof.
  intros HF Hpos Hab.
  destruct (MVT_cor2 F f a b Hab) as [c [Hc _]].
  - intros c _. apply HF.
  - specialize (Hpos c). nra.
Qed.

Lemma primitive_reflect (F f : R -> R) :
  is_primitive F f -> (forall x, f (- x) = f x) ->
  is_primitive (fun x => - F (- x)) f.
Proof.
  intros HF Heven x.
  replace (f x) with (- (f (- x) * -1)) by (rewrite Heven; ring).
  apply derivable_pt_lim_opp.
  apply (derivable_pt_lim_comp (fun y => - y) F).
  - replace (-1) with (- 1) by ring.
    apply derivable_pt_lim_opp, derivable_pt_lim_id.
  - apply HF.
Qed.

(** The distribution function is strictly increasing, hence quantiles are
    unique and ordered like their orders. *)
Lemma t_cdf_lt (nu : nat) (t1 t2 p1 p2 : R) :
  (1 <= nu)%nat -> t_cdf nu t1 p1 -> t_cdf nu t2 p2 -> p1 < p2 -> t1 < t2.
Proof.
  intros Hnu [F1 [HF1 E1]] [F2' [HF2 E2]] Hp.
  destruct (Rlt_dec t1 t2) as [|Hn]; [assumption | exfalso].
  assert (Hle : t2 <= t1) by lra.
  pose proof (primitive_diff F1 F2' _ t2 0 HF1 HF2) as D.
  destruct Hle as [Hlt | Heq].
  - pose proof (primitive_increasing F1 _ t2 t1 HF1
                  (fun x => t_pdf_pos nu x Hnu) Hlt). lra.
  - subst t2. lra.
Qed.

Lemma t_cdf_inj (nu : nat) (t1 t2 p : R) :
  (1 <= nu)%nat -> t_cdf nu t1 p -> t_cdf nu t2 p -> t1 = t2.
Proof.
  intros Hnu [F1 [HF1 E1]] [F2' [HF2 E2]].
  pose proof (primitive_diff F1 F2' _ 0 t2 HF1 HF2) as D.
  destruct (Rtotal_order t1 t2) as [H | [H | H]]; [exfalso | assumption | exfalso].
  - pose proof (primitive_increasing F1 _ t1 t2 HF1
                  (fun x => t_pdf_pos nu x Hnu) H). lra.
  - pose proof (primitive_increasing F1 _ t2 t1 HF1
                  (fun x => t_pdf_pos nu x Hnu) H). lra.
Qed.

(** The distribution is symmetric about zero. *)
Lemma t_cdf_opp (nu : nat) (t p : R) :
  t_cdf nu t p -> t_cdf nu (- t) (1 - p).
Proof.
  intros [F [HF E]]. exists F. split; [assumption |].
  pose proof (primitive_reflect F _ HF (t_pdf_even nu)) as HG.
  pose proof (primitive_diff F _ _ 0 t HF HG) as D. cbv beta in D.
  rewrite Ropp_0 in D. lra.
Qed.

Lemma t_cdf_0 (nu : nat) (t : R) :
  (1 <= nu)%nat -> t_cdf nu t (1 / 2) -> t = 0.
Proof.
  intros Hnu H. apply (t_cdf_inj nu t 0 (1 / 2) Hnu H).
  destruct H as [F [HF _]]. exists F. split; [assumption | lra].
Qed.

(** What [interval] gets from a correct quantile routine: the lower
    quantile is the opposite of the upper one, and the upper one is the
    two-sided critical value. *)
Lemma quantile_ok_crit (t_ppf : R -> Z -> R) (c : R) (df : Z) :
  (1 <= df)%Z -> 0 <= c -> quantile_ok t_ppf c df ->
  t_ppf ((1 - c) / 2) df = - t_ppf ((1 + c) / 2) df /\
  is_t_crit (Z.to_nat df) c (t_ppf ((1 + c) / 2) df).
Proof.
  intros Hdf Hc [Hlo Hhi].
  assert (Hnu : (1 <= Z.to_nat df)%nat) by lia.
  unfold is_t_quantile in *.
  assert (Hsym : t_ppf ((1 - c) / 2) df = - t_ppf ((1 + c) / 2) df).
  { apply (t_cdf_inj _ _ _ ((1 - c) / 2) Hnu Hlo).
    replace ((1 - c) / 2) with (1 - (1 + c) / 2) by field.
    apply t_cdf_opp. exact Hhi. }
  split; [exact Hsym |]. split.
  - destruct (Rle_dec 0 (t_ppf ((1 + c) / 2) df)) as [|Hn]; [assumption |].
    exfalso.
    assert (Hz : t_cdf (Z.to_nat df) 0 (1 / 2)).
    { destruct Hhi as [F [HF _]]. exists F. split; [assumption | lra]. }
    destruct Hc as [Hc | Hc].
    + pose proof (t_cdf_lt _ _ _ _ _ Hnu Hz Hhi). lra.
    + subst c. replace ((1 + 0) / 2) with (1 / 2) in * by field.
      apply t_cdf_0 in Hhi; [lra | assumption].
  - rewrite <- Hsym.
    destruct Hhi as [F [HF E]]. destruct Hlo as [G [HG E']].
    exists F. split; [assumption |].
    pose proof (primitive_diff F G _ 0 (t_ppf ((1 - c) / 2) df) HF HG). lra.
Qed.

(** The critical value is unique and grows strictly with the level. *)
Lemma t_crit_cdf (nu : nat) (c t : R) :
  is_t_crit nu c t -> t_cdf nu t ((1 + c) / 2).
Proof.
  intros [_ [F [HF E]]]. exists F. split; [assumption |].
  pose proof (primitive_reflect F _ HF (t_pdf_even nu)) as HG.
  pose proof (primitive_diff F _ _ 0 t HF HG) as D. cbv beta in D.
  rewrite Ropp_0 in D. lra.
Qed.

Lemma t_crit_unique (nu : nat) (c t1 t2 : R) :
  (1 <= nu)%nat -> is_t_crit nu c t1 -> is_t_crit nu c t2 -> t1 = t2.
Proof.
  intros Hnu H1 H2.
  apply (t_cdf_inj nu t1 t2 ((1 + c) / 2) Hnu); apply t_crit_cdf; assumption.
Qed.


Lemma t_crit_pos (nu : nat) (c t : R) :
  (1 <= nu)%nat -> is_t_crit nu c t -> 0 < c -> 0 < t.
Proof.
  intros Hnu H Hc.
  assert (Hz : t_cdf nu 0 (1 / 2)).
  { destruct H as [_ [F [HF _]]]. exists F. split; [assumption | lra]. }
  apply (t_cdf_lt nu 0 t (1 / 2) ((1 + c) / 2) Hnu Hz (t_crit_cdf _ _ _ H)).
  lra.
Qed.

End StudentFacts.

(** ** Reference values of the t distribution *)

Module StudentValues.
Import Student StudentFacts.

Lemma derivable_pt_lim_ext (f g : R -> R) (x l : R) :
  (forall y, f y = g y) -> derivable_pt_lim f x l -> derivable_pt_lim g x l.
Proof.
  intros E D eps Heps. destruct (D eps Heps) as [delta Hd].
  exists delta. intros h Hh Hlt. rewrite <- !E. apply Hd; assumption.
Qed.

Lemma Rpower_3_2 (u : R) : 0 < u -> Rpower u (- (3 / 2)) = / (u * sqrt u).
Proof.
  intros Hu. rewrite Rpower_Ropp. f_equal.
  replace (3 / 2) with (1 + / 2) by field.
  rewrite Rpower_plus, Rpower_1, Rpower_sqrt by assumption. reflexivity.
Qed.

Lemma t_pdf_2 (x : R) : t_pdf 2 x = / ((2 + x ^ 2) * sqrt (2 + x ^ 2)).
Proof.
  unfold t_pdf. cbn [gamma_half INR].
  replace (- ((1 + 1 + 1) / 2)) with (- (3 / 2)) by field.
  assert (Hu : 0 < 1 + x ^ 2 / (1 + 1)) by (pose proof (pow2_ge_0 x); lra).
  rewrite Rpower_3_2 by assumption.
  replace (1 + x ^ 2 / (1 + 1)) with ((2 + x ^ 2) / 2) by field.
  assert (Hs : 0 < 2 + x ^ 2) by (pose proof (pow2_ge_0 x); lra).
  rewrite sqrt_div_alt by lra.
  replace ((1 + 1) * PI) with (2 * PI) by ring.
  rewrite sqrt_mult by (pose proof PI_RGT_0; lra).
  assert (H2 : 0 < sqrt 2) by (apply sqrt_lt_R0; lra).
  assert (Hp : 0 < sqrt PI) by (apply sqrt_lt_R0, PI_RGT_0).
  assert (Hq : 0 < sqrt (2 + x ^ 2)) by (apply sqrt_lt_R0; lra).
  assert (E2 : sqrt 2 * sqrt 2 = 2) by (apply sqrt_sqrt; lra).
  field. repeat split; lra.
Qed.

Lemma F2_primitive : is_primitive F2 (t_pdf 2).
Proof.
  intros x. rewrite t_pdf_2. unfold F2.
  assert (Hs : 0 < 2 + x ^ 2) by (pose proof (pow2_ge_0 x); lra).
  assert (Hq : 0 < sqrt (2 + x ^ 2)) by (apply sqrt_lt_R0; lra).
  assert (Hin : derivable_pt_lim (fun y => 2 + y ^ 2) x (2 * x)).
  { replace (2 * x) with (0 + INR 2 * x ^ pred 2) by (simpl; ring).
    apply (derivable_pt_lim_plus (fun _ => 2) (fun y => y ^ 2)).
    - apply derivable_pt_lim_const.
    - apply derivable_pt_lim_pow. }
  assert (Hsq : derivable_pt_lim (fun y => sqrt (2 + y ^ 2)) x
                  (/ (2 * sqrt (2 + x ^ 2)) * (2 * x))).
  { apply (derivable_pt_lim_comp (fun y => 2 + y ^ 2) sqrt).
    - exact Hin.
    - apply derivable_pt_lim_sqrt. exact Hs. }
  assert (Hden : derivable_pt_lim (fun y => 2 * sqrt (2 + y ^ 2)) x
                   (2 * (/ (2 * sqrt (2 + x ^ 2)) * (2 * x)))).
  { apply (derivable_pt_lim_scal (fun y => sqrt (2 + y ^ 2))). exact Hsq. }
  pose proof (derivable_pt_lim_div (fun y => y) (fun y => 2 * sqrt (2 + y ^ 2))
               x 1 _ (derivable_pt_lim_id x) Hden) as D.
  cbv beta in D.
  assert (Hne : 2 * sqrt (2 + x ^ 2) <> 0) by lra.
  specialize (D Hne).
  replace (/ ((2 + x ^ 2) * sqrt (2 + x ^ 2)))
    with ((1 * (2 * sqrt (2 + x ^ 2)) - 2 * (/ (2 * sqrt (2 + x ^ 2)) * (2 * x)) * x)
          / Rsqr (2 * sqrt (2 + x ^ 2))).
  - exact D.
  - unfold Rsqr.
    assert (E : sqrt (2 + x ^ 2) * sqrt (2 + x ^ 2) = 2 + x ^ 2)
      by (apply sqrt_sqrt; lra).
    field_simplify_eq; [| repeat split; lra].
    rewrite !pow2_sqrt by lra. ring.
Qed.

Lemma quantile2_correct (q : R) : 0 < q < 1 -> is_t_quantile 2 q (quantile2 q).
Proof.
  intros Hq. exists F2. split; [exact F2_primitive |].
  unfold F2, quantile2.
  assert (Hd : 0 < 2 * q * (1 - q)) by nra.
  assert (Hsd : 0 < sqrt (2 * q * (1 - q))) by (apply sqrt_lt_R0, Hd).
  replace (2 + ((2 * q - 1) / sqrt (2 * q * (1 - q))) ^ 2)
    with (/ (2 * q * (1 - q))).
  2:{ unfold Rdiv. rewrite Rpow_mult_distr, pow_inv, pow2_sqrt by lra.
      field. lra. }
  rewrite sqrt_inv.
  replace (0 / (2 * sqrt (2 + 0 ^ 2))) with 0 by (unfold Rdiv; ring).
  field. lra.
Qed.

Lemma sqrt_9_PI : sqrt (9 * PI) = 3 * sqrt PI.
Proof.
  rewrite sqrt_mult by (pose proof PI_RGT_0; lra).
  replace 9 with (3 * 3) by ring. rewrite sqrt_square by lra. reflexivity.
Qed.

Lemma t_pdf_9 (x : R) :
  t_pdf 9 x = 128 / (105 * PI) * / (1 + x ^ 2 / 9) ^ 5.
Proof.
  unfold t_pdf.
  assert (Hu : 0 < 1 + x ^ 2 / INR 9).
  { assert (0 < INR 9) by (apply lt_0_INR; lia).
    pose proof (pow2_ge_0 x).
    assert (0 <= x ^ 2 / INR 9) by (apply Rmult_le_pos; [lra | apply Rlt_le, Rinv_0_lt_compat; lra]).
    lra. }
  replace (- ((INR 9 + 1) / 2)) with (- INR 5) by (simpl; field).
  rewrite Rpower_Ropp, Rpower_pow by assumption.
  replace (INR 9) with 9 by (simpl; ring).
  rewrite sqrt_9_PI.
  cbn [gamma_half].
  assert (Hp : 0 < sqrt PI) by (apply sqrt_lt_R0, PI_RGT_0).
  assert (Hpi : sqrt PI * sqrt PI = PI) by (apply sqrt_sqrt; pose proof PI_RGT_0; lra).
  replace (105 * PI) with (105 * (sqrt PI * sqrt PI)) by (rewrite Hpi; reflexivity).
  simpl INR. field.
  assert (0 < 9 + x ^ 2) by (pose proof (pow2_ge_0 x); lra).
  repeat split; lra.
Qed.

Lemma derivable_pt_lim_term (k : nat) (x : R) :
  derivable_pt_lim (fun y => y / (9 + y ^ 2) ^ S k) x
    ((9 + x ^ 2 - 2 * INR (S k) * x ^ 2) / (9 + x ^ 2) ^ S (S k)).
Proof.
  assert (Hs : 0 < 9 + x ^ 2) by (pose proof (pow2_ge_0 x); lra).
  assert (Hin : derivable_pt_lim (fun y => 9 + y ^ 2) x (2 * x)).
  { replace (2 * x) with (0 + INR 2 * x ^ pred 2) by (simpl; ring).
    apply (derivable_pt_lim_plus (fun _ => 9) (fun y => y ^ 2)).
    - apply derivable_pt_lim_const.
    - apply derivable_pt_lim_pow. }
  assert (Hden : derivable_pt_lim (fun y => (9 + y ^ 2) ^ S k) x
                   (INR (S k) * (9 + x ^ 2) ^ pred (S k) * (2 * x))).
  { apply (derivable_pt_lim_comp (fun y => 9 + y ^ 2) (fun u => u ^ S k)).
    - exact Hin.
    - apply derivable_pt_lim_pow. }
  assert (Hne : (9 + x ^ 2) ^ S k <> 0) by (apply pow_nonzero; lra).
  pose proof (derivable_pt_lim_div (fun y => y) (fun y => (9 + y ^ 2) ^ S k)
                x 1 _ (derivable_pt_lim_id x) Hden Hne) as D.
  eapply derivable_pt_lim_ext; [intros y; reflexivity |].
  replace ((9 + x ^ 2 - 2 * INR (S k) * x ^ 2) / (9 + x ^ 2) ^ S (S k))
    with ((1 * (9 + x ^ 2) ^ S k
           - INR (S k) * (9 + x ^ 2) ^ pred (S k) * (2 * x) * x)
          / Rsqr ((9 + x ^ 2) ^ S k)).
  - exact D.
  - unfold Rsqr. cbn [pred]. rewrite <- !tech_pow_Rmult.
    assert (Hk : (9 + x ^ 2) ^ k <> 0) by (apply pow_nonzero; lra).
    field. split; [apply pow_nonzero; simpl |]; nra.
Qed.

Lemma F9_primitive : is_primitive F9 (t_pdf 9).
Proof.
  intros x. rewrite t_pdf_9.
  assert (Hs : 0 < 9 + x ^ 2) by (pose proof (pow2_ge_0 x); lra).
  assert (Hat : derivable_pt_lim (fun y => atan (y / 3)) x
                  (/ (1 + (x / 3) ^ 2) * (/ 3))).
  { apply (derivable_pt_lim_comp (fun y => y / 3) atan).
    - replace (/ 3) with (1 * / 3) by ring.
      apply (derivable_pt_lim_ext (fun y => (/ 3) * y)); [intros; field |].
      replace (1 * / 3) with (/ 3 * 1) by ring.
      apply (derivable_pt_lim_scal (fun y => y)), derivable_pt_lim_id.
    - apply derivable_pt_lim_atan. }
  pose proof (derivable_pt_lim_scal _ 3 x _ (derivable_pt_lim_term 0 x)) as D1.
  pose proof (derivable_pt_lim_scal _ 18 x _ (derivable_pt_lim_term 1 x)) as D2.
  pose proof (derivable_pt_lim_scal _ (648 / 5) x _ (derivable_pt_lim_term 2 x)) as D3.
  pose proof (derivable_pt_lim_scal _ (34992 / 35) x _ (derivable_pt_lim_term 3 x)) as D4.
  pose proof (derivable_pt_lim_plus _ _ x _ _ Hat
               (derivable_pt_lim_plus _ _ x _ _ D1
                 (derivable_pt_lim_plus _ _ x _ _ D2
                   (derivable_pt_lim_plus _ _ x _ _ D3 D4)))) as D.
  pose proof (derivable_pt_lim_scal _ (/ PI) x _ D) as DD.
  eapply derivable_pt_lim_ext in DD.
  2:{ intros y. unfold mult_real_fct, plus_fct. 
      instantiate (1 := F9). unfold F9, R9.
      assert (0 < 9 + y ^ 2) by (pose proof (pow2_ge_0 y); lra).
      pose proof PI_RGT_0.
      field. split; lra. }
  replace (128 / (105 * PI) * / (1 + x ^ 2 / 9) ^ 5) with
    (/ PI *
       (/ (1 + (x / 3) ^ 2) * / 3 +
        (3 * ((9 + x ^ 2 - 2 * INR 1 * x ^ 2) / (9 + x ^ 2) ^ 2) +
         (18 * ((9 + x ^ 2 - 2 * INR 2 * x ^ 2) / (9 + x ^ 2) ^ 3) +
          (648 / 5 * ((9 + x ^ 2 - 2 * INR 3 * x ^ 2) / (9 + x ^ 2) ^ 4) +
           34992 / 35 * ((9 + x ^ 2 - 2 * INR 4 * x ^ 2) / (9 + x ^ 2) ^ 5)))))).
  - exact DD.
  - pose proof PI_RGT_0. simpl INR. field. 
    repeat split; try lra.
Qed.

Lemma atan_series_bounds (x : R) (N : nat) :
  0 < x < 1 ->
  sum_f_R0 (tg_alt (Ratan_seq x)) (S (2 * N)) <= atan x
  <= sum_f_R0 (tg_alt (Ratan_seq x)) (2 * N).
Proof.
  intros Hx. rewrite atan_eq_ps_atan by assumption.
  assert (Hx' : 0 <= x <= 1) by lra.
  unfold ps_atan. destruct (Ratan.in_int x) as [h | h]; [| exfalso; apply h; lra].
  destruct (ps_atan_exists_1 x h) as [v Hv].
  apply alternated_series_ineq.
  - apply Ratan_seq_decreasing, Hx'.
  - apply Ratan_seq_converging, Hx'.
  - exact Hv.
Qed.

Lemma PI_bounds : 31415926 / 10000000 < PI < 31415927 / 10000000.
Proof.
  pose proof (PI_2_3_7_ineq 4) as [Hlo Hhi].
  unfold sum_f_R0, tg_alt, PI_2_3_7_tg, Ratan_seq in Hlo, Hhi.
  simpl in Hlo, Hhi. split; lra.
Qed.

Lemma F9_0 : F9 0 = 0.
Proof.
  unfold F9, R9. replace (0 / 3) with 0 by field. rewrite atan_0.
  field. pose proof PI_RGT_0. lra.
Qed.

Lemma F9_below : F9 (22615 / 10000) < 475 / 1000.
Proof.
  unfold F9. pose proof PI_bounds as [Hp1 Hp2].
  apply Rmult_lt_reg_r with PI; [lra |].
  unfold Rdiv at 1. rewrite Rmult_assoc, Rinv_l, Rmult_1_r by lra.
  replace (22615 / 10000 / 3) with (4523 / 6000) by field.
  pose proof (atan_series_bounds (4523 / 6000) 5) as [_ Ha]; [lra |].
  unfold sum_f_R0, tg_alt, Ratan_seq in Ha. simpl in Ha.
  unfold R9. lra.
Qed.

Lemma F9_above : 475 / 1000 < F9 (22625 / 10000).
Proof.
  unfold F9. pose proof PI_bounds as [Hp1 Hp2].
  apply Rmult_lt_reg_r with PI; [lra |].
  unfold Rdiv at 2. rewrite Rmult_assoc, Rinv_l, Rmult_1_r by lra.
  replace (22625 / 10000 / 3) with (181 / 240) by field.
  pose proof (atan_series_bounds (181 / 240) 5) as [Ha _]; [lra |].
  unfold sum_f_R0, tg_alt, Ratan_seq in Ha. simpl in Ha.
  unfold R9. lra.
Qed.

Lemma F9_continuity (x : R) : continuity_pt F9 x.
Proof.
  apply derivable_continuous_pt. exists (t_pdf 9 x). apply F9_primitive.
Qed.

Lemma t_cdf_9 (t : R) : t_cdf 9 t (1 / 2 + F9 t).
Proof.
  exists F9. split; [exact F9_primitive |]. rewrite F9_0. ring.
Qed.

(** The 97.5 percent quantile for nine degrees of freedom exists and is
    2.262 to three decimals. *)
Lemma quantile9_exists : exists t, is_t_quantile 9 (975 / 1000) t.
Proof.
  destruct (IVT_interv (fun x => F9 x - 475 / 1000)
              (22615 / 10000) (22625 / 10000)) as [z [_ Hz]].
  - intros a _. apply continuity_pt_minus.
    + apply F9_continuity.
    + apply continuity_pt_const. intros u v. reflexivity.
  - lra.
  - pose proof F9_below. lra.
  - pose proof F9_above. lra.
  - exists z. unfold is_t_quantile.
    replace (975 / 1000) with (1 / 2 + F9 z) by lra. apply t_cdf_9.
Qed.

Lemma quantile9_bounds (t : R) :
  is_t_quantile 9 (975 / 1000) t -> 22615 / 10000 < t < 22625 / 10000.
Proof.
  unfold is_t_quantile. intros Ht.
  assert (Hnu : (1 <= 9)%nat) by lia.
  pose proof F9_below. pose proof F9_above. split.
  - apply (t_cdf_lt 9 _ _ _ _ Hnu (t_cdf_9 (22615 / 10000)) Ht). lra.
  - apply (t_cdf_lt 9 _ _ _ _ Hnu Ht (t_cdf_9 (22625 / 10000))). lra.
Qed.

Lemma sqrt_between (a lo hi : R) :
  0 <= lo -> lo ^ 2 < a < hi ^ 2 -> 0 < hi -> lo < sqrt a < hi.
Proof.
  intros Hlo [H1 H2] Hhi. split.
  - rewrite <- (sqrt_pow2 lo) by assumption.
    apply sqrt_lt_1_alt. split; [apply pow2_ge_0 | assumption].
  - rewrite <- (sqrt_pow2 hi) by lra.
    apply sqrt_lt_1_alt. split; [| assumption].
    pose proof (pow2_ge_0 lo). lra.
Qed.

(** The 97.5 percent quantile for two degrees of freedom is about 4.30. *)
Lemma quantile2_975 : 430 / 100 < quantile2 (975 / 1000) < 431 / 100.
Proof.
  unfold quantile2.
  destruct (sqrt_between (2 * (975 / 1000) * (1 - 975 / 1000))
              (2207 / 10000) (2209 / 10000)) as [H1 H2]; try lra.
  set (s := sqrt (2 * (975 / 1000) * (1 - 975 / 1000))) in *.
  replace (2 * (975 / 1000) - 1) with (95 / 100) by field.
  assert (Hs : 0 < s) by lra.
  split.
  - apply Rmult_lt_reg_r with s; [assumption |].
    replace (95 / 100 / s * s) with (95 / 100) by (field; lra). lra.
  - apply Rmult_lt_reg_r with s; [assumption |].
    replace (95 / 100 / s * s) with (95 / 100) by (field; lra). lra.
Qed.

End StudentValues.

(** ** Quantiles for every number of degrees of freedom *)

Module StudentQuantiles.
Import Student StudentFacts StudentValues.

Lemma nat_ind2 (P : nat -> Prop) :
  P O -> P 1%nat -> (forall n, P n -> P (S (S n))) -> forall n, P n.
Proof.
  intros H0 H1 HS n.
  assert (H : P n /\ P (S n)).
  { induction n as [|n [IH1 IH2]]; [split; assumption |].
    split; [assumption | apply HS, IH1]. }
  apply H.
Qed.

Lemma cos_int_SS (m : nat) (x : R) :
  cos_int (S (S m)) x
  = (cos x ^ S m * sin x + INR (S m) * cos_int m x) / INR (S (S m)).
Proof. reflexivity. Qed.

Lemma cos_int_deriv (n : nat) (x : R) :
  derivable_pt_lim (cos_int n) x (cos x ^ n).
Proof.
  revert x. induction n as [| |m IH] using nat_ind2; intros x.
  - simpl. apply derivable_pt_lim_id.
  - simpl. rewrite Rmult_1_r. apply derivable_pt_lim_sin.
  - assert (Ha : 0 < INR (S (S m))) by (apply lt_0_INR; lia).
    assert (Dp : derivable_pt_lim (fun y => cos y ^ S m) x
                   (INR (S m) * cos x ^ pred (S m) * - sin x)).
    { apply (derivable_pt_lim_comp cos (fun u => u ^ S m)).
      - apply derivable_pt_lim_cos.
      - apply derivable_pt_lim_pow. }
    pose proof (derivable_pt_lim_mult _ _ x _ _ Dp (derivable_pt_lim_sin x)) as D1.
    pose proof (derivable_pt_lim_scal _ (INR (S m)) x _ (IH x)) as D2.
    pose proof (derivable_pt_lim_plus _ _ x _ _ D1 D2) as D3.
    pose proof (derivable_pt_lim_scal _ (/ INR (S (S m))) x _ D3) as D4.
    eapply derivable_pt_lim_ext in D4.
    2:{ intros y. unfold mult_real_fct, plus_fct, mult_fct.
        instantiate (1 := cos_int (S (S m))). rewrite cos_int_SS.
        unfold Rdiv. ring. }
    replace (cos x ^ S (S m)) with
      (/ INR (S (S m)) *
       (INR (S m) * cos x ^ pred (S m) * - sin x * sin x
        + cos x ^ S m * cos x + INR (S m) * cos x ^ m)).
    + exact D4.
    + cbn [pred]. rewrite (S_INR (S m)) in *.
      pose proof (sin2_cos2 x) as E. unfold Rsqr in E.
      set (a := INR (S m)) in *. set (s := sin x) in *. set (c := cos x) in *.
      rewrite <- !tech_pow_Rmult. set (cm := c ^ m).
      replace (a * cm * - s * s) with (- (a * cm * (s * s))) by ring.
      replace (s * s) with (1 - c * c) by lra.
      field. lra.
Qed.

Lemma cos_int_0 (n : nat) : cos_int n 0 = 0.
Proof.
  induction n as [| |m IH] using nat_ind2.
  - reflexivity.
  - simpl. apply sin_0.
  - rewrite cos_int_SS, IH, sin_0. unfold Rdiv. ring.
Qed.

Lemma cos_int_continuity (n : nat) (x : R) : continuity_pt (cos_int n) x.
Proof.
  apply derivable_continuous_pt. exists (cos x ^ n). apply cos_int_deriv.
Qed.

(** Wallis' integrals against the gamma function. *)
Lemma wallis_gamma (k : nat) :
  2 * gamma_half (S (S k)) * cos_int k (PI / 2) = sqrt PI * gamma_half (S k).
Proof.
  assert (Hpi : sqrt PI * sqrt PI = PI)
    by (apply sqrt_sqrt; pose proof PI_RGT_0; lra).
  induction k as [| |k IH] using nat_ind2.
  - simpl. rewrite Hpi. field.
  - cbn [cos_int]. rewrite sin_PI2. cbn [gamma_half]. simpl INR. field.
  - rewrite cos_int_SS, cos_PI2, sin_PI2, pow_i by lia.
    change (gamma_half (S (S (S (S k)))))
      with (INR (S (S k)) / 2 * gamma_half (S (S k))).
    change (gamma_half (S (S (S k)))) with (INR (S k) / 2 * gamma_half (S k)).
    assert (Ha : 0 < INR (S (S k))) by (apply lt_0_INR; lia).
    transitivity (INR (S k) / 2 * (2 * gamma_half (S (S k)) * cos_int k (PI / 2))).
    + field. lra.
    + rewrite IH. field.
Qed.

Lemma Rpower_half_odd (n : nat) (u : R) :
  0 < u -> Rpower u (- ((INR n + 1) / 2)) = / sqrt u ^ S n.
Proof.
  intros Hu. rewrite Rpower_Ropp. f_equal.
  replace ((INR n + 1) / 2) with (/ 2 * INR (S n)) by (rewrite S_INR; field).
  rewrite <- Rpower_mult, Rpower_sqrt by assumption.
  apply Rpower_pow, sqrt_lt_R0, Hu.
Qed.

Lemma t_prim_primitive (nu : nat) :
  (1 <= nu)%nat -> is_primitive (t_prim nu) (t_pdf nu).
Proof.
  intros Hnu x. destruct nu as [|k]; [lia |]. cbn [pred].
  set (nu := S k).
  assert (Hn : 0 < INR nu) by (apply lt_0_INR; lia).
  assert (Hsn : 0 < sqrt (INR nu)) by (apply sqrt_lt_R0, Hn).
  assert (Hpi : 0 < sqrt PI) by (apply sqrt_lt_R0, PI_RGT_0).
  assert (Hg : 0 < gamma_half nu) by (apply gamma_half_pos; lia).
  assert (Hat : derivable_pt_lim (fun y => atan (y / sqrt (INR nu))) x
                  (/ (1 + (x / sqrt (INR nu)) ^ 2) * (/ sqrt (INR nu)))).
  { apply (derivable_pt_lim_comp (fun y => y / sqrt (INR nu)) atan).
    - pose proof (derivable_pt_lim_scal (fun y => y) (/ sqrt (INR nu)) x 1
                    (derivable_pt_lim_id x)) as H.
      rewrite Rmult_1_r in H.
      eapply derivable_pt_lim_ext; [| exact H].
      intros y. unfold mult_real_fct, Rdiv. ring.
    - apply derivable_pt_lim_atan. }
  pose proof (derivable_pt_lim_comp _ (cos_int k) x _ _ Hat
                (cos_int_deriv k _)) as D.
  pose proof (derivable_pt_lim_scal _
                (gamma_half (S nu) / (sqrt PI * gamma_half nu)) x _ D) as DD.
  eapply derivable_pt_lim_ext in DD.
  2:{ intros y. unfold mult_real_fct, comp. instantiate (1 := t_prim nu).
      reflexivity. }
  replace (t_pdf nu x) with
    (gamma_half (S nu) / (sqrt PI * gamma_half nu) *
     (cos (atan (x / sqrt (INR nu))) ^ k *
      (/ (1 + (x / sqrt (INR nu)) ^ 2) * / sqrt (INR nu)))).
  - exact DD.
  - unfold t_pdf.
    assert (Ex : (x / sqrt (INR nu)) ^ 2 = x ^ 2 / INR nu).
    { unfold Rdiv. rewrite Rpow_mult_distr, pow_inv, pow2_sqrt by lra.
      reflexivity. }
    assert (Hu : 0 < 1 + x ^ 2 / INR nu).
    { rewrite <- Ex. pose proof (pow2_ge_0 (x / sqrt (INR nu))). lra. }
    rewrite Rpower_half_odd by assumption.
    set (u := 1 + x ^ 2 / INR nu) in *.
    assert (Hsu : 0 < sqrt u) by (apply sqrt_lt_R0, Hu).
    assert (Ecos : cos (atan (x / sqrt (INR nu))) = / sqrt u).
    { rewrite cos_atan. unfold Rsqr.
      replace (1 + x / sqrt (INR nu) * (x / sqrt (INR nu))) with u
        by (unfold u; rewrite <- Ex; ring).
      field. lra. }
    rewrite Ecos, Ex. fold u.
    rewrite sqrt_mult by (pose proof PI_RGT_0; lra).
    assert (Esu : sqrt u * sqrt u = u) by (apply sqrt_sqrt; lra).
    assert (Hk : sqrt u ^ k <> 0) by (apply pow_nonzero; lra).
    change (sqrt u ^ S nu) with (sqrt u * (sqrt u * sqrt u ^ k)).
    rewrite pow_inv.
    replace (/ u) with (/ (sqrt u * sqrt u)) by (rewrite Esu; reflexivity).
    field. repeat split; lra.
Qed.

Lemma t_prim_0 (nu : nat) : t_prim nu 0 = 0.
Proof.
  unfold t_prim. replace (0 / sqrt (INR nu)) with 0 by (unfold Rdiv; ring).
  rewrite atan_0, cos_int_0. ring.
Qed.

Lemma t_cdf_prim (nu : nat) (t : R) :
  (1 <= nu)%nat -> t_cdf nu t (1 / 2 + t_prim nu t).
Proof.
  intros Hnu. exists (t_prim nu). split; [apply t_prim_primitive, Hnu |].
  rewrite t_prim_0. ring.
Qed.

(** Every order strictly between 0 and 1 has a quantile. *)
Lemma t_quantile_upper (nu : nat) (q : R) :
  (1 <= nu)%nat -> 1 / 2 <= q < 1 -> exists t, is_t_quantile nu q t.
Proof.
  intros Hnu [Hq1 Hq2]. destruct nu as [|k]; [lia |].
  set (nu := S k).
  assert (Hn : 0 < INR nu) by (apply lt_0_INR; lia).
  assert (Hsn : 0 < sqrt (INR nu)) by (apply sqrt_lt_R0, Hn).
  assert (Hpi : 0 < sqrt PI) by (apply sqrt_lt_R0, PI_RGT_0).
  assert (Hg : 0 < gamma_half nu) by (apply gamma_half_pos; lia).
  assert (Hg' : 0 < gamma_half (S nu)) by (apply gamma_half_pos; lia).
  set (K := gamma_half (S nu) / (sqrt PI * gamma_half nu)).
  assert (HK : 0 < K).
  { apply Rdiv_lt_0_compat; [assumption | apply Rmult_lt_0_compat; assumption]. }
  assert (HW : K * cos_int k (PI / 2) = 1 / 2).
  { pose proof (wallis_gamma k) as E. fold nu in E. unfold K.
    apply Rmult_eq_reg_l with (2 * (sqrt PI * gamma_half nu)); [| nra].
    transitivity (2 * gamma_half (S nu) * cos_int k (PI / 2)).
    - field. split; lra.
    - rewrite E. field. }
  destruct Hq1 as [Hq1 | Hq1].
  2:{ exists 0. subst q. unfold is_t_quantile.
      pose proof (t_cdf_prim nu 0 Hnu) as H. rewrite t_prim_0 in H.
      replace (1 / 2 + 0) with (1 / 2) in H by ring. exact H. }
  pose proof PI_RGT_0 as Hp.
  destruct (IVT_interv (fun y => cos_int k y - (q - 1 / 2) / K) 0 (PI / 2))
    as [z [[Hz1 Hz2] Hz]].
  - intros a _. apply continuity_pt_minus.
    + apply cos_int_continuity.
    + apply continuity_pt_const. intros u v. reflexivity.
  - lra.
  - rewrite cos_int_0.
    assert (0 < (q - 1 / 2) / K) by (apply Rdiv_lt_0_compat; lra). lra.
  - apply Rmult_lt_reg_l with K; [assumption |].
    replace (K * (cos_int k (PI / 2) - (q - 1 / 2) / K))
      with (K * cos_int k (PI / 2) - (q - 1 / 2)) by (field; lra).
    rewrite HW. lra.
  - assert (Hz3 : z <> PI / 2).
    { intros ->.
      assert (K * cos_int k (PI / 2) = q - 1 / 2).
      { replace (cos_int k (PI / 2)) with ((q - 1 / 2) / K) by lra.
        field. lra. }
      lra. }
    exists (sqrt (INR nu) * tan z). unfold is_t_quantile.
    replace q with (1 / 2 + t_prim nu (sqrt (INR nu) * tan z)).
    + apply t_cdf_prim. lia.
    + unfold t_prim. change (pred nu) with k. fold K.
      replace (sqrt (INR nu) * tan z / sqrt (INR nu)) with (tan z)
        by (field; lra).
      rewrite atan_tan by lra.
      replace (cos_int k z) with ((q - 1 / 2) / K) by lra.
      clearbody K. field. lra.
Qed.

Lemma t_quantile_exists (nu : nat) (q : R) :
  (1 <= nu)%nat -> 0 < q < 1 -> exists t, is_t_quantile nu q t.
Proof.
  intros Hnu Hq. destruct (Rle_dec (1 / 2) q) as [H | H].
  - apply t_quantile_upper; [assumption | lra].
  - destruct (t_quantile_upper nu (1 - q) Hnu) as [t Ht]; [lra |].
    exists (- t). unfold is_t_quantile in *.
    replace q with (1 - (1 - q)) by ring. apply t_cdf_opp, Ht.
Qed.

Lemma t_quantile_spec (nu : nat) (q : R) :
  (1 <= nu)%nat -> 0 < q < 1 -> is_t_quantile nu q (t_quantile nu q).
Proof.
  intros Hnu Hq. unfold t_quantile.
  apply epsilon_spec, t_quantile_exists; assumption.
Qed.

End StudentQuantiles.

(** The modelled routine returns the quantiles that [interval] asks for. *)
Lemma stats_t_ppf_ok (c : R) (df : Z) :
  0 < c < 1 -> (1 <= df)%Z -> Student.quantile_ok stats_t_ppf c df.
Proof.
  intros Hc Hdf. unfold Student.quantile_ok, stats_t_ppf.
  split; apply StudentQuantiles.t_quantile_spec; try lia; lra.
Qed.

(** ** Arithmetic on finite values *)

Lemma fdiv_fin (x y : R) : y <> 0 -> fdiv (Fin x) (Fin y) = Fin (x / y).
Proof.
  intros Hy. unfold fdiv. destruct (Req_dec_T y 0); [contradiction | reflexivity].
Qed.

Lemma fdiv_zero_zero : fdiv (Fin 0) (Fin 0) = NaN.
Proof.
  unfold fdiv, inf_signed.
  destruct (Req_dec_T 0 0); [reflexivity | contradiction].
Qed.

Lemma fsqrt_fin (x : R) : 0 <= x -> fsqrt (Fin x) = Fin (sqrt x).
Proof.
  intros Hx. unfold fsqrt. destruct (Rlt_dec x 0); [lra | reflexivity].
Qed.

Lemma fsqrt_neg (x : R) : x < 0 -> fsqrt (Fin x) = NaN.
Proof.
  intros Hx. unfold fsqrt. destruct (Rlt_dec x 0); [reflexivity | lra].
Qed.

Lemma fgt_fin_true (x y : R) : y < x -> fgt (Fin x) (Fin y) = true.
Proof.
  intros H. unfold fgt. destruct (Rlt_dec y x); [reflexivity | lra].
Qed.

Lemma fgt_fin_false (x y : R) : x <= y -> fgt (Fin x) (Fin y) = false.
Proof.
  intros H. unfold fgt. destruct (Rlt_dec y x); [lra | reflexivity].
Qed.

Lemma fle_fin_true (x y : R) : x <= y -> fle (Fin x) (Fin y) = true.
Proof.
  intros H. unfold fle. destruct (Rle_dec x y); [reflexivity | lra].
Qed.

Lemma fle_fin_false (x y : R) : y < x -> fle (Fin x) (Fin y) = false.
Proof.
  intros H. unfold fle. destruct (Rle_dec x y); [lra | reflexivity].
Qed.

Lemma py_max_fin (x y : R) : py_max (Fin x) (Fin y) = Fin (Rmax x y).
Proof.
  unfold py_max, fgt, Rmax.
  destruct (Rlt_dec x y), (Rle_dec x y); try reflexivity; try lra.
  f_equal. lra.
Qed.

Lemma py_max_nan (b : float64) : py_max NaN b = NaN.
Proof.
  destruct b; reflexivity.
Qed.

(** ** The survey table of a well-formed input *)

Lemma well_formed_inv (res_list : list Z) :
  well_formed res_list ->
  exists c1 c2 c3 c4 c5,
    res_list = [c1; c2; c3; c4; c5] /\
    (0 <= c1)%Z /\ (0 <= c2)%Z /\ (0 <= c3)%Z /\ (0 <= c4)%Z /\ (0 <= c5)%Z.
Proof.
  intros [Hlen Hall].
  destruct res_list as [|c1 [|c2 [|c3 [|c4 [|c5 [|c6 l]]]]]]; try discriminate.
  exists c1, c2, c3, c4, c5. split; [reflexivity |].
  repeat match goal with
         | H : Forall _ (_ :: _) |- _ => inversion H; subst; clear H
         end.
  tauto.
Qed.

Lemma well_formedb_spec (res_list : list Z) :
  well_formedb res_list = true <-> well_formed res_list.
Proof.
  unfold well_formedb, well_formed.
  rewrite andb_true_iff, Nat.eqb_eq, forallb_forall, Forall_forall.
  split; intros [H1 H2]; (split; [exact H1 |]); intros x Hx;
    specialize (H2 x Hx); lia.
Qed.

(** A concrete list of counts is well formed by evaluation. *)
Ltac wf_input := apply well_formedb_spec; reflexivity.

Lemma df_survey_rows (res_list : list Z) :
  well_formed res_list -> Forall row_ok (df_survey res_list).
Proof.
  intros H. destruct (well_formed_inv _ H) as (c1 & c2 & c3 & c4 & c5 & -> & ?).
  unfold df_survey, row_ok. simpl.
  repeat constructor; simpl; lia.
Qed.

(** The three integer sums of the script, for the five counts. *)
Lemma df_survey_sums (c1 c2 c3 c4 c5 : Z) :
  let df := df_survey [c1; c2; c3; c4; c5] in
  count_sum df = (c1 + c2 + c3 + c4 + c5)%Z /\
  rating_count_sum df = (1 * c1 + 2 * c2 + 3 * c3 + 4 * c4 + 5 * c5)%Z /\
  top_box_sum df = (c4 + c5)%Z.
Proof.
  unfold count_sum, rating_count_sum, top_box_sum, int_sum, df_survey.
  cbn [n_level seq map combine filter fold_right fst snd rating count
       Z.of_nat Pos.of_succ_nat Pos.succ Z.leb Z.compare Pos.compare
       Pos.compare_cont].
  repeat split; ring.
Qed.

Lemma count_sum_nonneg (df : list row) :
  Forall row_ok df -> (0 <= count_sum df)%Z.
Proof.
  unfold count_sum, int_sum. induction 1 as [|r l [_ Hr] _ IH]; simpl; lia.
Qed.

(** The weighted sum of the ratings lies between one and five times the
    number of responses. *)
Lemma rating_count_sum_bounds (df : list row) :
  Forall row_ok df ->
  (count_sum df <= rating_count_sum df <= 5 * count_sum df)%Z.
Proof.
  unfold count_sum, rating_count_sum, int_sum.
  induction 1 as [|r l [Hr Hc] _ IH]; cbn [map fold_right]; [lia |].
  assert (count r <= rating r * count r <= 5 * count r)%Z by nia.
  lia.
Qed.

Lemma top_box_sum_bounds (df : list row) :
  Forall row_ok df -> (0 <= top_box_sum df <= count_sum df)%Z.
Proof.
  unfold count_sum, top_box_sum, int_sum.
  induction 1 as [|r l [Hr Hc] _ IH]; cbn [map fold_right filter]; [lia |].
  destruct (4 <=? rating r)%Z; cbn [map fold_right]; lia.
Qed.

(** Within the widget range no integer of the script leaves [int64]. *)
Lemma int64_safe (res_list : list Z) :
  well_formed res_list ->
  Forall (fun c => (c <= 2 ^ 53 - 1)%Z) res_list ->
  (rating_count_sum (df_survey res_list) < 2 ^ 63)%Z /\
  (count_sum (df_survey res_list) < 2 ^ 63)%Z.
Proof.
  intros H Hub.
  destruct (well_formed_inv _ H) as (c1 & c2 & c3 & c4 & c5 & -> & ?).
  repeat match goal with
         | H : Forall _ (_ :: _) |- _ => inversion H; subst; clear H
         end.
  change (2 ^ 53 - 1)%Z with 9007199254740991%Z in *.
  change (2 ^ 63)%Z with 9223372036854775808%Z.
  unfold rating_count_sum, count_sum, int_sum, df_survey.
  cbn [n_level seq map combine fold_right fst snd rating count Z.of_nat].
  lia.
Qed.

Lemma csat_score_fin (df : list row) :
  (1 <= count_sum df)%Z ->
  csat_score df = Fin (IZR (rating_count_sum df) / IZR (count_sum df)).
Proof.
  intros HN. unfold csat_score, of_int. apply fdiv_fin.
  apply not_0_IZR. lia.
Qed.

Lemma csat_percent_fin (df : list row) :
  (1 <= count_sum df)%Z ->
  csat_percent df = Fin (IZR (top_box_sum df) / IZR (count_sum df)).
Proof.
  intros HN. unfold csat_percent, of_int. apply fdiv_fin.
  apply not_0_IZR. lia.
Qed.

Lemma score_range (df : list row) :
  Forall row_ok df -> (1 <= count_sum df)%Z ->
  1 <= IZR (rating_count_sum df) / IZR (count_sum df) <= 5.
Proof.
  intros Hok HN.
  pose proof (rating_count_sum_bounds df Hok) as [Hlo Hhi].
  assert (HNr : 0 < IZR (count_sum df)) by (apply IZR_lt; lia).
  apply IZR_le in Hlo, Hhi. rewrite mult_IZR in Hhi.
  split.
  - apply Rmult_le_reg_r with (IZR (count_sum df)); [assumption |].
    unfold Rdiv. rewrite Rmult_assoc, Rinv_l; lra.
  - apply Rmult_le_reg_r with (IZR (count_sum df)); [assumption |].
    unfold Rdiv. rewrite Rmult_assoc, Rinv_l; lra.
Qed.

Lemma percent_range (df : list row) :
  Forall row_ok df -> (1 <= count_sum df)%Z ->
  0 <= IZR (top_box_sum df) / IZR (count_sum df) <= 1.
Proof.
  intros Hok HN.
  pose proof (top_box_sum_bounds df Hok) as [Hlo Hhi].
  assert (HNr : 0 < IZR (count_sum df)) by (apply IZR_lt; lia).
  apply IZR_le in Hlo, Hhi.
  split.
  - apply Rmult_le_reg_r with (IZR (count_sum df)); [assumption |].
    unfold Rdiv. rewrite Rmult_assoc, Rinv_l; lra.
  - apply Rmult_le_reg_r with (IZR (count_sum df)); [assumption |].
    unfold Rdiv. rewrite Rmult_assoc, Rinv_l; lra.
Qed.

(** ** The script's sums and the specification's sums *)

Lemma total_count_sum (df : list row) : Spec.total df = IZR (count_sum df).
Proof.
  unfold Spec.total, Spec.rsum, count_sum, int_sum.
  induction df as [|r l IH]; cbn [map fold_right]; [reflexivity |].
  rewrite plus_IZR, IH. reflexivity.
Qed.

Lemma score_rating_count_sum (df : list row) :
  Spec.score df = IZR (rating_count_sum df) / IZR (count_sum df).
Proof.
  unfold Spec.score. rewrite total_count_sum. f_equal.
  unfold Spec.rsum, rating_count_sum, int_sum.
  induction df as [|r l IH]; cbn [map fold_right]; [reflexivity |].
  rewrite plus_IZR, mult_IZR, IH. reflexivity.
Qed.

Lemma percent_top_box_sum (df : list row) :
  Spec.percent 4 df = IZR (top_box_sum df) / IZR (count_sum df).
Proof.
  unfold Spec.percent. rewrite total_count_sum. f_equal.
  unfold Spec.rsum, top_box_sum, int_sum.
  induction (filter (fun r => (4 <=? rating r)%Z) df) as [|r l IH];
    cbn [map fold_right]; [reflexivity |].
  rewrite plus_IZR, IH. reflexivity.
Qed.

Lemma csat_score_spec (df : list row) :
  (1 <= count_sum df)%Z -> csat_score df = Fin (Spec.score df).
Proof.
  intros HN. rewrite score_rating_count_sum. apply csat_score_fin, HN.
Qed.

Lemma csat_percent_spec (df : list row) :
  (1 <= count_sum df)%Z -> csat_percent df = Fin (Spec.percent 4 df).
Proof.
  intros HN. rewrite percent_top_box_sum. apply csat_percent_fin, HN.
Qed.

(** The column [diff2] holds finite values and sums to the weighted sum of
    squared deviations. *)
Lemma float_sum_diff2 (m : R) (rows : list row) :
  float_sum
    (map (fun r => fmul (fsquare (fsub (of_int (rating r)) (Fin m)))
                        (of_int (count r))) rows)
  = Fin (Spec.rsum (map (fun r => IZR (count r) * (IZR (rating r) - m) ^ 2)
                        rows)).
Proof.
  unfold float_sum, Spec.rsum.
  induction rows as [|r l IH]; cbn [map]; [reflexivity |].
  replace (fmul (fsquare (fsub (of_int (rating r)) (Fin m)))
                (of_int (count r)))
    with (Fin (IZR (count r) * (IZR (rating r) - m) ^ 2))
    by (cbn [of_int fsub fneg fadd fsquare fmul]; f_equal; ring).
  cbn [filter is_nan negb fold_right]. rewrite IH. reflexivity.
Qed.

Lemma sq_dev_nonneg (m : R) (rows : list row) :
  Forall row_ok rows ->
  0 <= Spec.rsum (map (fun r => IZR (count r) * (IZR (rating r) - m) ^ 2)
                      rows).
Proof.
  unfold Spec.rsum.
  induction 1 as [|r l [_ Hc] _ IH]; cbn [map fold_right]; [lra |].
  apply IZR_le in Hc. pose proof (pow2_ge_0 (IZR (rating r) - m)). nra.
Qed.

Lemma variance_nonneg (df : list row) :
  Forall row_ok df -> (2 <= count_sum df)%Z -> 0 <= Spec.variance df.
Proof.
  intros Hok HN. unfold Spec.variance. rewrite total_count_sum.
  apply IZR_le in HN.
  apply Rmult_le_pos; [apply sq_dev_nonneg, Hok |].
  apply Rlt_le, Rinv_0_lt_compat. lra.
Qed.

Lemma std_sample_spec (df : list row) :
  Forall row_ok df -> (2 <= count_sum df)%Z ->
  std_sample df = Fin (Spec.std df).
Proof.
  intros Hok HN. unfold std_sample, diff2.
  rewrite csat_score_spec by lia. rewrite float_sum_diff2.
  unfold degrees_freedom, survey_count, of_int.
  rewrite fdiv_fin by (apply not_0_IZR; lia).
  rewrite minus_IZR, <- total_count_sum.
  apply fsqrt_fin. apply (variance_nonneg df Hok HN).
Qed.

Lemma std_csat_score_spec (df : list row) :
  Forall row_ok df -> (2 <= count_sum df)%Z ->
  std_csat_score df = Fin (Spec.se_score df).
Proof.
  intros Hok HN. unfold std_csat_score. rewrite std_sample_spec by assumption.
  unfold survey_count, of_int.
  assert (HNr : 0 < IZR (count_sum df)) by (apply IZR_lt; lia).
  rewrite fsqrt_fin by lra.
  rewrite fdiv_fin by (apply Rgt_not_eq, sqrt_lt_R0, HNr).
  unfold Spec.se_score. rewrite total_count_sum. reflexivity.
Qed.

Lemma std_csat_percent_spec (df : list row) :
  Forall row_ok df -> (1 <= count_sum df)%Z ->
  std_csat_percent df = Fin (Spec.se_percent 4 df).
Proof.
  intros Hok HN. unfold std_csat_percent.
  rewrite csat_percent_spec by lia.
  cbn [fsub fneg fadd fmul]. unfold survey_count, of_int.
  assert (HNr : 0 < IZR (count_sum df)) by (apply IZR_lt; lia).
  rewrite fdiv_fin by lra.
  unfold Spec.se_percent. rewrite total_count_sum.
  replace (1 + - Spec.percent 4 df) with (1 - Spec.percent 4 df) by ring.
  apply fsqrt_fin.
  pose proof (percent_range df Hok HN) as Hp.
  rewrite <- percent_top_box_sum in Hp.
  apply Rmult_le_pos; [nra |]. apply Rlt_le, Rinv_0_lt_compat, HNr.
Qed.

Lemma se_score_nonneg (df : list row) : 0 <= Spec.se_score df.
Proof.
  unfold Spec.se_score, Spec.std.
  destruct (Rle_dec (Spec.total df) 0) as [Hz | Hz].
  - rewrite (sqrt_neg_0 (Spec.total df)) by assumption.
    unfold Rdiv. rewrite Rinv_0. lra.
  - apply Rmult_le_pos; [apply sqrt_pos |].
    apply Rlt_le, Rinv_0_lt_compat, sqrt_lt_R0. lra.
Qed.

(** The standard error of the score vanishes exactly when every respondent
    gave the same rating. *)
Lemma sq_dev_pos_iff (m : R) (rows : list row) :
  Forall row_ok rows ->
  (0 < Spec.rsum (map (fun r => IZR (count r) * (IZR (rating r) - m) ^ 2)
                      rows)
   <-> exists r, In r rows /\ (0 < count r)%Z /\ IZR (rating r) <> m).
Proof.
  unfold Spec.rsum.
  induction 1 as [|r l [_ Hc] Hl IH]; cbn [map fold_right].
  - split; [lra | intros (r & [] & _)].
  - pose proof (sq_dev_nonneg m l Hl) as Hrest. unfold Spec.rsum in Hrest.
    pose proof (pow2_ge_0 (IZR (rating r) - m)) as Hsq.
    assert (Hcr : 0 <= IZR (count r)) by (apply IZR_le; exact Hc).
    split.
    + intros Hpos.
      destruct (Rlt_dec 0 (IZR (count r) * (IZR (rating r) - m) ^ 2))
        as [Hhead | Hhead].
      * exists r. split; [left; reflexivity |]. split.
        -- apply lt_IZR. destruct Hcr as [|Hz]; [assumption |].
           rewrite <- Hz in Hhead. lra.
        -- intros Heq. rewrite Heq in Hhead.
           replace (m - m) with 0 in Hhead by ring. lra.
      * assert (Hz : IZR (count r) * (IZR (rating r) - m) ^ 2 = 0) by nra.
        rewrite Hz, Rplus_0_l in Hpos.
        destruct (proj1 IH Hpos) as (r' & Hin & H'). exists r'.
        split; [right; exact Hin | exact H'].
    + intros (r' & [<- | Hin] & Hcnt & Hne).
      * apply IZR_lt in Hcnt.
        assert (0 < (IZR (rating r) - m) ^ 2).
        { assert (IZR (rating r) - m <> 0) by lra. nra. }
        nra.
      * pose proof (proj2 IH (ex_intro _ r' (conj Hin (conj Hcnt Hne)))).
        nra.
Qed.

Lemma se_score_pos_iff (df : list row) :
  Forall row_ok df -> (2 <= count_sum df)%Z ->
  (0 < Spec.se_score df
   <-> exists r, In r df /\ (0 < count r)%Z /\ IZR (rating r) <> Spec.score df).
Proof.
  intros Hok HN. rewrite <- sq_dev_pos_iff by assumption.
  unfold Spec.se_score, Spec.std, Spec.variance. rewrite total_count_sum.
  set (w := Spec.rsum _). set (n := IZR (count_sum df)).
  assert (Hn : 2 <= n) by (apply IZR_le; exact HN).
  assert (Hw : 0 <= w) by (apply sq_dev_nonneg; exact Hok).
  assert (Hsn : 0 < sqrt n) by (apply sqrt_lt_R0; lra).
  assert (Hi : 0 < / (n - 1)) by (apply Rinv_0_lt_compat; lra).
  split.
  - intros Hs. destruct Hw as [Hw | Hw]; [exact Hw | exfalso].
    rewrite <- Hw in Hs. unfold Rdiv in Hs.
    rewrite Rmult_0_l, sqrt_0, Rmult_0_l in Hs. lra.
  - intros Hpos. apply Rdiv_lt_0_compat; [| exact Hsn].
    apply sqrt_lt_R0, Rmult_lt_0_compat; assumption.
Qed.

(** The standard error of the percentage vanishes exactly when nobody or
    everybody is in the top two boxes. *)
Lemma se_percent_pos_iff (df : list row) :
  Forall row_ok df -> (1 <= count_sum df)%Z ->
  (0 < Spec.se_percent 4 df <-> (0 < top_box_sum df < count_sum df)%Z).
Proof.
  intros Hok HN. unfold Spec.se_percent.
  rewrite percent_top_box_sum, total_count_sum.
  pose proof (top_box_sum_bounds df Hok) as [Hlo Hhi].
  set (a := IZR (top_box_sum df)). set (n := IZR (count_sum df)).
  assert (Hn : 0 < n) by (apply IZR_lt; lia).
  assert (Ha : 0 <= a <= n) by (split; apply IZR_le; lia).
  assert (E : a / n * (1 - a / n) / n = a * (n - a) / (n * n * n))
    by (field; lra).
  rewrite E. clear E.
  assert (Hn3 : 0 < / (n * n * n))
    by (apply Rinv_0_lt_compat; repeat apply Rmult_lt_0_compat; assumption).
  split.
  - intros Hs.
    assert (Hne : a * (n - a) / (n * n * n) <> 0).
    { intros Hz. rewrite Hz, sqrt_0 in Hs. lra. }
    assert (Ha0 : a <> 0) by (intros Hz; apply Hne; rewrite Hz; field; lra).
    assert (Han : a <> n) by (intros Hz; apply Hne; rewrite Hz; field; lra).
    split.
    + destruct (Z.eq_dec (top_box_sum df) 0) as [Ez | Ez]; [| lia].
      exfalso. apply Ha0. unfold a. rewrite Ez. reflexivity.
    + destruct (Z.eq_dec (top_box_sum df) (count_sum df)) as [Ez | Ez]; [| lia].
      exfalso. apply Han. unfold a, n. rewrite Ez. reflexivity.
  - intros [H0 H1]. apply sqrt_lt_R0.
    assert (0 < a) by (apply IZR_lt; lia).
    assert (a < n) by (apply IZR_lt; lia).
    apply Rmult_lt_0_compat; [nra | assumption].
Qed.

Lemma se_percent_nonneg (df : list row) : 0 <= Spec.se_percent 4 df.
Proof.
  apply sqrt_pos.
Qed.

(** ** The interval builder *)

Lemma fmul_nan_r (a : float64) : fmul a NaN = NaN.
Proof.
  destruct a; reflexivity.
Qed.

Section Intervals.

Variable t_ppf : R -> Z -> R.

Lemma ppf_fin (q : R) (df : Z) (m s : R) :
  (1 <= df)%Z -> 0 < s -> 0 < q < 1 ->
  ppf t_ppf q df (Fin m) (Fin s) = Fin (t_ppf q df * s + m).
Proof.
  intros Hdf Hs [Hq0 Hq1]. unfold ppf.
  replace (0 <? df)%Z with true by (symmetry; apply Z.ltb_lt; lia).
  rewrite fgt_fin_true by assumption. cbn [andb is_nan negb].
  destruct (Req_dec_T q 0); [lra |].
  destruct (Req_dec_T q 1); [lra |].
  destruct (Rlt_dec 0 q); [| lra].
  destruct (Rlt_dec q 1); [| lra].
  reflexivity.
Qed.

Lemma ppf_bad_scale (q : R) (df : Z) (loc scale : float64) :
  fgt scale (Fin 0) = false -> ppf t_ppf q df loc scale = NaN.
Proof.
  intros H. unfold ppf. rewrite H, andb_false_r. reflexivity.
Qed.

Lemma ppf_bad_df (q : R) (df : Z) (loc scale : float64) :
  (df <= 0)%Z -> ppf t_ppf q df loc scale = NaN.
Proof.
  intros H. unfold ppf.
  replace (0 <? df)%Z with false by (symmetry; apply Z.ltb_ge; lia).
  reflexivity.
Qed.

Lemma interval_ok (c : R) (df : Z) (loc scale : float64) :
  0 <= c <= 1 ->
  interval t_ppf c df loc scale = Ok (ppf_pair t_ppf c df loc scale).
Proof.
  intros [H0 H1]. unfold interval.
  destruct (Rlt_dec 1 c); [lra |]. destruct (Rlt_dec c 0); [lra |].
  reflexivity.
Qed.

Lemma interval_raises (c : R) (df : Z) (loc scale : float64) :
  c < 0 \/ 1 < c -> interval t_ppf c df loc scale = Raise ValueError.
Proof.
  intros H. unfold interval.
  destruct (Rlt_dec 1 c); [reflexivity |].
  destruct (Rlt_dec c 0); [reflexivity | lra].
Qed.

Lemma ppf_pair_fin (c : R) (df : Z) (m s : R) :
  0 < c < 1 -> (1 <= df)%Z -> 0 < s ->
  ppf_pair t_ppf c df (Fin m) (Fin s)
  = (Fin (t_ppf ((1 - c) / 2) df * s + m),
     Fin (t_ppf ((1 + c) / 2) df * s + m)).
Proof.
  intros Hc Hdf Hs. unfold ppf_pair.
  rewrite !ppf_fin by (try assumption; lra). reflexivity.
Qed.

Lemma ppf_pair_bad_scale (c : R) (df : Z) (loc scale : float64) :
  fgt scale (Fin 0) = false -> ppf_pair t_ppf c df loc scale = (NaN, NaN).
Proof.
  intros H. unfold ppf_pair. rewrite !ppf_bad_scale by assumption.
  reflexivity.
Qed.

Lemma ppf_pair_bad_df (c : R) (df : Z) (loc scale : float64) :
  (df <= 0)%Z -> ppf_pair t_ppf c df loc scale = (NaN, NaN).
Proof.
  intros H. unfold ppf_pair. rewrite !ppf_bad_df by assumption.
  reflexivity.
Qed.

(** With a correct quantile routine the bounds lie symmetrically about the
    location, at the critical value times the scale. *)
Lemma ppf_pair_crit (c : R) (df : Z) (m s : R) :
  0 < c < 1 -> (1 <= df)%Z -> 0 < s -> Student.quantile_ok t_ppf c df ->
  ppf_pair t_ppf c df (Fin m) (Fin s)
  = (Fin (m - t_ppf ((1 + c) / 2) df * s),
     Fin (m + t_ppf ((1 + c) / 2) df * s)).
Proof.
  intros Hc Hdf Hs Hq.
  rewrite ppf_pair_fin by assumption.
  destruct (StudentFacts.quantile_ok_crit t_ppf c df Hdf) as [Hsym _];
    [lra | assumption |].
  rewrite Hsym. f_equal; f_equal; ring.
Qed.

(** When the confidence level is in range no call raises, and the script
    reports the four pairs of bounds. *)
Lemma csat_calculator_ok (res_list : list Z) (c : R) (survey_total : Z) :
  0 <= c <= 1 ->
  csat_calculator t_ppf res_list c survey_total =
  let df := df_survey res_list in
  let k := py_max (fpc df survey_total) (Fin default_zero) in
  Ok {| n_response := survey_count df;
        score := csat_score df;
        percent := csat_percent df;
        score_ci :=
          ppf_pair t_ppf c (degrees_freedom df) (csat_score df)
                   (std_csat_score df);
        percent_ci :=
          ppf_pair t_ppf c (degrees_freedom df) (csat_percent df)
                   (std_csat_percent df);
        score_ci_fpc :=
          ppf_pair t_ppf c (degrees_freedom df) (csat_score df)
                   (fmul (std_csat_score df) k);
        percent_ci_fpc :=
          ppf_pair t_ppf c (degrees_freedom df) (csat_percent df)
                   (fmul (std_csat_percent df) k) |}.
Proof.
  intros Hc. unfold csat_calculator.
  rewrite !interval_ok by assumption. reflexivity.
Qed.

End Intervals.

(** ** Inputs outside the intended range *)

Lemma no_response (res_list : list Z) :
  well_formed res_list ->
  survey_count (df_survey res_list) = 0%Z ->
  csat_score (df_survey res_list) = NaN /\
  csat_percent (df_survey res_list) = NaN.
Proof.
  intros Hwf HN. unfold survey_count in HN.
  pose proof (df_survey_rows res_list Hwf) as Hok.
  pose proof (rating_count_sum_bounds _ Hok) as Hr.
  pose proof (top_box_sum_bounds _ Hok) as Ht.
  unfold csat_score, csat_percent.
  replace (rating_count_sum (df_survey res_list)) with 0%Z by lia.
  replace (top_box_sum (df_survey res_list)) with 0%Z by lia.
  rewrite HN. split; apply fdiv_zero_zero.
Qed.

Lemma fpc_zero_total (df : list row) :
  (1 <= survey_count df)%Z ->
  fpc df 0 = Fin (sqrt (IZR (survey_count df))).
Proof.
  intros HN. unfold fpc, of_int.
  change (0 - 1)%Z with (-1)%Z.
  rewrite fdiv_fin by lra.
  replace (IZR (0 - survey_count df) / -1) with (IZR (survey_count df))
    by (rewrite minus_IZR; field).
  apply fsqrt_fin. apply IZR_le. lia.
Qed.

Lemma fpc_nan (df : list row) (survey_total : Z) :
  (1 <= survey_total < survey_count df)%Z -> fpc df survey_total = NaN.
Proof.
  intros [Hlo Hhi]. unfold fpc, of_int.
  assert (Hnum : IZR (survey_total - survey_count df) < 0)
    by (apply IZR_lt; lia).
  destruct (Z.eq_dec survey_total 1) as [-> | Hne].
  - change (1 - 1)%Z with 0%Z. unfold fdiv, inf_signed.
    destruct (Req_dec_T 0 0); [| contradiction].
    destruct (Req_dec_T (IZR (1 - survey_count df)) 0); [lra |].
    destruct (Rlt_dec 0 (IZR (1 - survey_count df))); [lra | reflexivity].
  - assert (Hden : 0 < IZR (survey_total - 1)) by (apply IZR_lt; lia).
    rewrite fdiv_fin by lra. apply fsqrt_neg.
    unfold Rdiv. pose proof (Rinv_0_lt_compat _ Hden). nra.
Qed.

(** ** Intervals of the report *)

Lemma width_fin (lo hi : R) : width (Fin lo, Fin hi) = Fin (hi - lo).
Proof.
  reflexivity.
Qed.

Lemma width_nan : width (NaN, NaN) = NaN.
Proof.
  reflexivity.
Qed.

Lemma width_scaled_le (m t se k : R) :
  0 < t -> 0 < se -> 0 < k <= 1 ->
  (m + t * (se * k)) - (m - t * (se * k)) <= (m + t * se) - (m - t * se).
Proof.
  intros Ht Hse [Hk0 Hk1].
  pose proof (Rmult_lt_0_compat t se Ht Hse) as Hts.
  assert (t * se * k <= t * se) by nra. lra.
Qed.

(** A standard error of zero stays unusable whatever it is multiplied by. *)
Lemma zero_scale_rejected (k : float64) :
  fgt (fmul (Fin 0) k) (Fin 0) = false.
Proof.
  destruct k as [y | | |]; cbn [fmul]; try reflexivity.
  - apply fgt_fin_false. lra.
  - unfold inf_signed. destruct (Req_dec_T 0 0); [reflexivity | contradiction].
  - unfold inf_signed. destruct (Req_dec_T (- 0) 0); [reflexivity | lra].
Qed.

Lemma default_zero_pos : 0 < default_zero < 1.
Proof.
  unfold default_zero. lra.
Qed.

(** The correction factor for a total at least as large as the sample. *)
Lemma fpc_fin (df : list row) (survey_total : Z) :
  (2 <= survey_count df <= survey_total)%Z ->
  exists f,
    fpc df survey_total = Fin f /\ 0 <= f < 1 /\
    (survey_total = survey_count df -> f = 0) /\
    ((survey_count df < survey_total)%Z -> 0 < f).
Proof.
  intros [HN Hpop]. unfold fpc, of_int.
  set (a := IZR (survey_total - survey_count df)).
  set (b := IZR (survey_total - 1)).
  assert (Ha : 0 <= a) by (apply IZR_le; lia).
  assert (Hab : a < b) by (apply IZR_lt; lia).
  assert (Hb : 0 < b) by lra.
  assert (Hr0 : 0 <= a / b)
    by (apply Rmult_le_pos; [lra | apply Rlt_le, Rinv_0_lt_compat, Hb]).
  assert (Hr1 : a / b < 1).
  { apply Rmult_lt_reg_r with b; [assumption |].
    unfold Rdiv. rewrite Rmult_assoc, Rinv_l by lra. lra. }
  exists (sqrt (a / b)).
  rewrite fdiv_fin by lra. rewrite fsqrt_fin by assumption.
  split; [reflexivity |]. split; [split |]; [apply sqrt_pos | | split].
  - rewrite <- sqrt_1. apply sqrt_lt_1_alt. lra.
  - intros E. unfold a. rewrite E, Z.sub_diag.
    unfold Rdiv. rewrite Rmult_0_l. apply sqrt_0.
  - intros Hlt. apply sqrt_lt_R0.
    assert (0 < a) by (apply IZR_lt; lia).
    apply Rmult_lt_0_compat; [assumption | apply Rinv_0_lt_compat, Hb].
Qed.

(** The factor after the guard [max(fpc, default_zero)]. *)
Lemma fpc_guarded (df : list row) (survey_total : Z) :
  (2 <= survey_count df <= survey_total)%Z ->
  exists k,
    py_max (fpc df survey_total) (Fin default_zero) = Fin k /\ 0 < k < 1 /\
    (survey_total = survey_count df -> k = default_zero).
Proof.
  intros H. destruct (fpc_fin df survey_total H) as (f & E & [Hf0 Hf1] & Hz & _).
  pose proof default_zero_pos as [He0 He1].
  exists (Rmax f default_zero). rewrite E, py_max_fin.
  split; [reflexivity |]. split.
  - unfold Rmax. destruct (Rle_dec f default_zero); lra.
  - intros Eq. rewrite (Hz Eq). unfold Rmax.
    destruct (Rle_dec 0 default_zero); lra.
Qed.

(** The table of the input in which all ten respondents gave five stars. *)
Lemma all_five_stars :
  let df := df_survey [0; 0; 0; 0; 10]%Z in
  survey_count df = 10%Z /\ degrees_freedom df = 9%Z /\
  csat_score df = Fin 5 /\ csat_percent df = Fin 1 /\
  std_csat_score df = Fin 0 /\ std_csat_percent df = Fin 0.
Proof.
  cbv zeta.
  assert (Hs : csat_score (df_survey [0; 0; 0; 0; 10]%Z) = Fin 5).
  { rewrite csat_score_fin by (vm_compute; discriminate).
    change (rating_count_sum (df_survey [0; 0; 0; 0; 10]%Z)) with 50%Z.
    change (count_sum (df_survey [0; 0; 0; 0; 10]%Z)) with 10%Z.
    f_equal. field. }
  assert (Hp : csat_percent (df_survey [0; 0; 0; 0; 10]%Z) = Fin 1).
  { rewrite csat_percent_fin by (vm_compute; discriminate).
    change (top_box_sum (df_survey [0; 0; 0; 0; 10]%Z)) with 10%Z.
    change (count_sum (df_survey [0; 0; 0; 0; 10]%Z)) with 10%Z.
    f_equal. field. }
  split; [reflexivity |]. split; [reflexivity |].
  split; [exact Hs |]. split; [exact Hp |]. split.
  - unfold std_csat_score, std_sample, diff2. rewrite Hs, float_sum_diff2.
    unfold degrees_freedom, survey_count.
    change (count_sum (df_survey [0; 0; 0; 0; 10]%Z)) with 10%Z.
    unfold df_survey, Spec.rsum, of_int.
    cbn [n_level seq map combine fold_right fst snd rating count Z.of_nat
         Pos.of_succ_nat Pos.succ Z.sub Z.add Z.opp Z.pos_sub Z.succ_double
         Z.pred_double Z.double Pos.pred_double].
    replace (IZR 0 * (IZR 1 - 5) ^ 2 +
             (IZR 0 * (IZR 2 - 5) ^ 2 +
              (IZR 0 * (IZR 3 - 5) ^ 2 +
               (IZR 0 * (IZR 4 - 5) ^ 2 + (IZR 10 * (IZR 5 - 5) ^ 2 + 0)))))
      with 0 by ring.
    rewrite fdiv_fin by lra.
    replace (0 / 9) with 0 by field.
    rewrite !fsqrt_fin by lra. rewrite sqrt_0.
    rewrite fdiv_fin by (apply Rgt_not_eq, sqrt_lt_R0; lra).
    f_equal. unfold Rdiv. ring.
  - unfold std_csat_percent. rewrite Hp. cbn [fsub fneg fadd fmul].
    unfold survey_count, of_int.
    change (count_sum (df_survey [0; 0; 0; 0; 10]%Z)) with 10%Z.
    rewrite fdiv_fin by lra.
    replace (1 * (1 + - (1)) / 10) with 0 by field.
    rewrite fsqrt_fin by lra. rewrite sqrt_0. reflexivity.
Qed.

(** Every interval of the report for the all-five-stars input is [nan]. *)
Lemma all_five_stars_report (t_ppf : R -> Z -> R) (c : R) (survey_total : Z)
    (r : report) :
  0 <= c <= 1 ->
  csat_calculator t_ppf [0; 0; 0; 0; 10]%Z c survey_total = Ok r ->
  n_response r = 10%Z /\ score r = Fin 5 /\ percent r = Fin 1 /\
  score_ci r = (NaN, NaN) /\ percent_ci r = (NaN, NaN) /\
  score_ci_fpc r = (NaN, NaN) /\ percent_ci_fpc r = (NaN, NaN).
Proof.
  intros Hc E. rewrite csat_calculator_ok in E by assumption. cbv zeta in E.
  injection E as <-.
  destruct all_five_stars as (HN & _ & Hs & Hp & Hss & Hsp).
  cbn [n_response score percent score_ci percent_ci score_ci_fpc
       percent_ci_fpc].
  rewrite Hss, Hsp.
  repeat split; try assumption;
    apply ppf_pair_bad_scale;
    first [apply zero_scale_rejected | apply fgt_fin_false; lra].
Qed.

(** ** Reports for at least two respondents *)

Section Reports.

Variable t_ppf : R -> Z -> R.
Variable res_list : list Z.
Variable c : R.
Variable survey_total : Z.

Let df := df_survey res_list.
Let t := t_ppf ((1 + c) / 2) (degrees_freedom df).

Hypothesis Hwf : well_formed res_list.
Hypothesis HN : (2 <= survey_count df)%Z.
Hypothesis Hc : 0 < c < 1.
Hypothesis Hq : Student.quantile_ok t_ppf c (degrees_freedom df).

Lemma report_crit :
  Student.is_t_crit (Z.to_nat (degrees_freedom df)) c t.
Proof.
  apply (StudentFacts.quantile_ok_crit t_ppf c (degrees_freedom df));
    [unfold degrees_freedom; lia | lra | exact Hq].
Qed.

Lemma report_crit_pos : 0 < t.
Proof.
  apply (StudentFacts.t_crit_pos (Z.to_nat (degrees_freedom df)) c t);
    [unfold degrees_freedom; lia | apply report_crit | lra].
Qed.

(** The interval around a finite location for a scale [se * k]. *)
Lemma report_pair (m se k : R) :
  0 < se -> 0 < k ->
  ppf_pair t_ppf c (degrees_freedom df) (Fin m) (fmul (Fin se) (Fin k))
  = (Fin (m - t * (se * k)), Fin (m + t * (se * k))).
Proof.
  intros Hse Hk. cbn [fmul]. apply ppf_pair_crit; try assumption.
  - unfold degrees_freedom; lia.
  - apply Rmult_lt_0_compat; assumption.
Qed.

Lemma report_pair_1 (m se : R) :
  0 < se ->
  ppf_pair t_ppf c (degrees_freedom df) (Fin m) (Fin se)
  = (Fin (m - t * se), Fin (m + t * se)).
Proof.
  intros Hse. apply ppf_pair_crit; try assumption.
  unfold degrees_freedom; lia.
Qed.

Lemma report_uncorrected (r : report) :
  csat_calculator t_ppf res_list c survey_total = Ok r ->
  score r = Fin (Spec.score df) /\
  percent r = Fin (Spec.percent 4 df) /\
  (0 < Spec.se_score df ->
   score_ci r = (Fin (Spec.score df - t * Spec.se_score df),
                 Fin (Spec.score df + t * Spec.se_score df))) /\
  (0 < Spec.se_percent 4 df ->
   percent_ci r = (Fin (Spec.percent 4 df - t * Spec.se_percent 4 df),
                   Fin (Spec.percent 4 df + t * Spec.se_percent 4 df))).
Proof.
  intros E. rewrite csat_calculator_ok in E by lra. cbv zeta in E.
  injection E as <-. cbn [score percent score_ci percent_ci]. fold df.
  pose proof (df_survey_rows res_list Hwf) as Hok. fold df in Hok.
  unfold survey_count in HN.
  rewrite csat_score_spec, csat_percent_spec by lia.
  rewrite std_csat_score_spec by assumption.
  rewrite std_csat_percent_spec by (try assumption; lia).
  split; [reflexivity |]. split; [reflexivity |].
  split; intros Hse; apply report_pair_1; assumption.
Qed.

Lemma report_corrected (r : report) (k : R) :
  py_max (fpc df survey_total) (Fin default_zero) = Fin k -> 0 < k ->
  csat_calculator t_ppf res_list c survey_total = Ok r ->
  (0 < Spec.se_score df ->
   score_ci_fpc r = (Fin (Spec.score df - t * (Spec.se_score df * k)),
                     Fin (Spec.score df + t * (Spec.se_score df * k)))) /\
  (0 < Spec.se_percent 4 df ->
   percent_ci_fpc r
   = (Fin (Spec.percent 4 df - t * (Spec.se_percent 4 df * k)),
      Fin (Spec.percent 4 df + t * (Spec.se_percent 4 df * k)))).
Proof.
  intros Ek Hk E. rewrite csat_calculator_ok in E by lra. cbv zeta in E.
  injection E as <-. cbn [score_ci_fpc percent_ci_fpc]. fold df.
  pose proof (df_survey_rows res_list Hwf) as Hok. fold df in Hok.
  unfold survey_count in HN.
  rewrite Ek, csat_score_spec, csat_percent_spec by lia.
  rewrite std_csat_score_spec by assumption.
  rewrite std_csat_percent_spec by (try assumption; lia).
  split; intros Hse; apply report_pair; assumption.
Qed.

Lemma report_exists :
  exists r, csat_calculator t_ppf res_list c survey_total = Ok r.
Proof.
  rewrite csat_calculator_ok by lra. eexists. reflexivity.
Qed.

End Reports.

(** ** Reference inputs *)

(** A quantile routine that is exact for two degrees of freedom. *)
Lemma quantile2_ok (c : R) (df : Z) :
  0 < c < 1 -> Z.to_nat df = 2%nat ->
  Student.quantile_ok (fun q _ => Student.quantile2 q) c df.
Proof.
  intros Hc E. unfold Student.quantile_ok. rewrite E.
  split; apply StudentValues.quantile2_correct; lra.
Qed.

(** The table for three respondents, one each at three, four and five
    stars, and the one for one each at one, two and four stars. *)
Lemma three_upper_ratings :
  let df := df_survey [0; 0; 1; 1; 1]%Z in
  survey_count df = 3%Z /\ degrees_freedom df = 2%Z /\
  Spec.score df = 4 /\ Spec.percent 4 df = 2 / 3 /\
  0 < Spec.se_score df /\ Spec.se_percent 4 df = sqrt (2 / 27).
Proof.
  cbv zeta. set (df := df_survey [0; 0; 1; 1; 1]%Z).
  assert (Hsc : Spec.score df = 4).
  { rewrite score_rating_count_sum.
    change (rating_count_sum df) with 12%Z. change (count_sum df) with 3%Z.
    field. }
  assert (Hp : Spec.percent 4 df = 2 / 3).
  { rewrite percent_top_box_sum.
    change (top_box_sum df) with 2%Z. change (count_sum df) with 3%Z.
    reflexivity. }
  assert (Ht : Spec.total df = 3).
  { rewrite total_count_sum. change (count_sum df) with 3%Z. reflexivity. }
  split; [reflexivity |]. split; [reflexivity |].
  split; [exact Hsc |]. split; [exact Hp |]. split.
  - unfold Spec.se_score, Spec.std, Spec.variance. rewrite Hsc, Ht.
    unfold df, df_survey, Spec.rsum.
    cbn [n_level seq map combine fold_right fst snd rating count Z.of_nat
         Pos.of_succ_nat Pos.succ].
    replace ((IZR 0 * (IZR 1 - 4) ^ 2 +
              (IZR 0 * (IZR 2 - 4) ^ 2 +
               (IZR 1 * (IZR 3 - 4) ^ 2 +
                (IZR 1 * (IZR 4 - 4) ^ 2 + (IZR 1 * (IZR 5 - 4) ^ 2 + 0)))))
             / (3 - 1)) with 1 by field.
    rewrite sqrt_1. apply Rdiv_lt_0_compat; [lra | apply sqrt_lt_R0; lra].
  - unfold Spec.se_percent. rewrite Hp, Ht. f_equal. field.
Qed.

Lemma three_lower_ratings :
  let df := df_survey [1; 1; 0; 1; 0]%Z in
  survey_count df = 3%Z /\ degrees_freedom df = 2%Z /\
  Spec.percent 4 df = 1 / 3 /\ Spec.se_percent 4 df = sqrt (2 / 27).
Proof.
  cbv zeta. set (df := df_survey [1; 1; 0; 1; 0]%Z).
  assert (Hp : Spec.percent 4 df = 1 / 3).
  { rewrite percent_top_box_sum.
    change (top_box_sum df) with 1%Z. change (count_sum df) with 3%Z.
    reflexivity. }
  assert (Ht : Spec.total df = 3).
  { rewrite total_count_sum. change (count_sum df) with 3%Z. reflexivity. }
  split; [reflexivity |]. split; [reflexivity |]. split; [exact Hp |].
  unfold Spec.se_percent. rewrite Hp, Ht. f_equal. field.
Qed.

Lemma sqrt_2_27 : 27 / 100 < sqrt (2 / 27) < 28 / 100.
Proof.
  apply StudentValues.sqrt_between; lra.
Qed.

(** An exact quantile routine returns about 4.30 at level 0.95 and two
    degrees of freedom. *)
Lemma t_ppf_2_975 (t_ppf : R -> Z -> R) :
  Student.quantile_ok t_ppf (95 / 100) 2 ->
  430 / 100 < t_ppf ((1 + 95 / 100) / 2) 2%Z < 431 / 100.
Proof.
  intros [_ Hhi].
  replace (t_ppf ((1 + 95 / 100) / 2) 2%Z)
    with (Student.quantile2 (975 / 1000)).
  - exact StudentValues.quantile2_975.
  - apply (StudentFacts.t_cdf_inj 2 _ _ (975 / 1000)); [lia | |].
    + apply StudentValues.quantile2_correct. lra.
    + replace (975 / 1000) with ((1 + 95 / 100) / 2) by field. exact Hhi.
Qed.

(** ** The interval for an exact quantile routine *)

Lemma interval_crit (t_ppf : R -> Z -> R) (c : R) (df : Z) (point se : R) :
  0 < c < 1 -> (1 <= df)%Z -> 0 < se ->
  Student.quantile_ok t_ppf c df ->
  Student.is_t_crit (Z.to_nat df) c (t_ppf ((1 + c) / 2) df) /\
  interval t_ppf c df (Fin point) (Fin se)
  = Ok (Fin (point - t_ppf ((1 + c) / 2) df * se),
        Fin (point + t_ppf ((1 + c) / 2) df * se)).
Proof.
  intros Hc Hdf Hse Hq.
  destruct (StudentFacts.quantile_ok_crit t_ppf c df Hdf) as [_ Hcrit];
    [lra | assumption |].
  split; [exact Hcrit |].
  rewrite interval_ok by lra. f_equal.
  apply ppf_pair_crit; assumption.
Qed.

(** ** Order between the intervals of one table *)


(** The interval for the scale [se * k] with [0 < k <= 1] lies within the one
    for the scale [se] and holds the location. *)
Lemma scaled_within (m t se k : R) :
  0 < t -> 0 < se -> 0 < k <= 1 ->
  m - t * se <= m - t * (se * k) /\ m - t * (se * k) <= m /\
  m <= m + t * (se * k) /\ m + t * (se * k) <= m + t * se.
Proof.
  intros Ht Hse [Hk0 Hk1].
  pose proof (Rmult_lt_0_compat t se Ht Hse) as Hts.
  assert (t * (se * k) <= t * se) by nra.
  assert (0 < t * (se * k)) by nra.
  repeat split; lra.
Qed.

(** With the factor [default_zero] the corrected interval is at most a
    millionth as wide. *)
Lemma guarded_width (m t se : R) :
  0 < t -> 0 < se ->
  ((m + t * (se * default_zero)) - (m - t * (se * default_zero))) * 1000000
  <= (m + t * se) - (m - t * se).
Proof.
  intros Ht Hse. unfold default_zero.
  pose proof (Rmult_lt_0_compat t se Ht Hse) as Hts.
  replace (((m + t * (se * / 100000000)) - (m - t * (se * / 100000000)))
           * 1000000)
    with (t * se * (2 / 100)) by field.
  lra.
Qed.

(** ** Rounding *)

(** Some but not all of [2^53 + 4] respondents rated four or five: the
    percentage is rounded to 1 and its standard error to 0. *)
Lemma percent_rounds_to_one :
  let res_list := [1; 0; 0; 9007199254740991; 4]%Z in
  let df := df_survey res_list in
  well_formed res_list /\
  Forall (fun c => (c <= widget_max)%Z) res_list /\
  (0 < top_box_sum df < survey_count df)%Z /\
  (exact_int_max < survey_count df)%Z /\
  Binary64.csat_percent df = Binary64.of_int 1 /\
  Binary64.std_csat_percent df = Binary64.of_int 0.
Proof.
  cbv zeta. split; [wf_input |].
  split; [repeat constructor; vm_compute; discriminate |].
  split; [vm_compute; split; reflexivity |].
  split; [vm_compute; reflexivity |].
  split; vm_compute; reflexivity.
Qed.

(** * The claims *)

(** ** Score and percentage *)

(** C1, with the upper bound of the score where the sums are exact.  For
    five non-negative counts with [N >= 1] respondents the script's score is
    the response-weighted mean rating [sum(level_i * count_i) / N] and is at
    least 1, and its percentage is [(count_4 + count_5) / N] (ratings at or
    above 4) and lies between 0 and 1.  When [5 * N] does not exceed
    [exact_int_max = 2^53], the sum of [level_i * count_i] does not either,
    both sums convert to [float64] without rounding, and the score is at
    most 5.  For the counts 1, 1, 2, 3, 2 the script finds 9 respondents,
    the score 31/9 = 3.444... and the percentage 5/9 = 0.5556; in binary64
    they are the quotients of 31 and of 5 by 9, rounded once. *)
Theorem csat_score_percent :
  (forall c1 c2 c3 c4 c5 : Z,
      (0 <= c1)%Z -> (0 <= c2)%Z -> (0 <= c3)%Z -> (0 <= c4)%Z ->
      (0 <= c5)%Z ->
      let N := (c1 + c2 + c3 + c4 + c5)%Z in
      (1 <= N)%Z ->
      let df := df_survey [c1; c2; c3; c4; c5] in
      survey_count df = N /\
      exists s p,
        csat_score df = Fin s /\
        s = IZR (1 * c1 + 2 * c2 + 3 * c3 + 4 * c4 + 5 * c5) / IZR N /\
        s = Spec.score df /\ 1 <= s /\
        ((5 * N <= exact_int_max)%Z ->
         (rating_count_sum df <= exact_int_max)%Z /\ s <= 5) /\
        csat_percent df = Fin p /\
        p = IZR (c4 + c5) / IZR N /\
        p = Spec.percent 4 df /\ 0 <= p <= 1) /\
  (let df := df_survey [1; 1; 2; 3; 2]%Z in
   survey_count df = 9%Z /\
   csat_score df = Fin (31 / 9) /\ 3444 / 1000 < 31 / 9 < 3445 / 1000 /\
   csat_percent df = Fin (5 / 9) /\ 55555 / 100000 < 5 / 9 < 55565 / 100000 /\
   Binary64.csat_score df
   = PrimFloat.div (Binary64.of_int 31) (Binary64.of_int 9) /\
   Binary64.csat_percent df
   = PrimFloat.div (Binary64.of_int 5) (Binary64.of_int 9)).
Proof.
  split.
  - intros c1 c2 c3 c4 c5 H1 H2 H3 H4 H5 N HN df.
    destruct (df_survey_sums c1 c2 c3 c4 c5) as (EN & Er & Et).
    fold df in EN, Er, Et. fold N in EN.
    assert (Hok : Forall row_ok df).
    { apply df_survey_rows. split; [reflexivity |]. repeat constructor; assumption. }
    assert (HN' : (1 <= count_sum df)%Z) by (rewrite EN; exact HN).
    pose proof (score_range df Hok HN') as [Hs1 Hs5].
    split; [exact EN |].
    exists (IZR (rating_count_sum df) / IZR (count_sum df)),
           (IZR (top_box_sum df) / IZR (count_sum df)).
    split; [apply csat_score_fin, HN' |].
    split; [rewrite Er, EN; reflexivity |].
    split; [symmetry; apply score_rating_count_sum |].
    split; [exact Hs1 |].
    split.
    { intros Hex. split; [| exact Hs5].
      pose proof (rating_count_sum_bounds df Hok). lia. }
    split; [apply csat_percent_fin, HN' |].
    split; [rewrite Et, EN; reflexivity |].
    split; [symmetry; apply percent_top_box_sum |].
    apply percent_range; assumption.
  - cbv zeta. split; [reflexivity |].
    split; [rewrite csat_score_fin by (vm_compute; discriminate); reflexivity |].
    split; [lra |].
    split; [rewrite csat_percent_fin by (vm_compute; discriminate); reflexivity |].
    split; [lra |].
    split; vm_compute; reflexivity.
Qed.

Lemma csat_score_percent_witness :
  let df := df_survey [2; 1; 2; 3; 2]%Z in
  survey_count df = (2 + 1 + 2 + 3 + 2)%Z /\
  exists s p,
    csat_score df = Fin s /\
    s = IZR (1 * 2 + 2 * 1 + 3 * 2 + 4 * 3 + 5 * 2) / IZR (2 + 1 + 2 + 3 + 2) /\
    s = Spec.score df /\ 1 <= s /\
    ((5 * (2 + 1 + 2 + 3 + 2) <= exact_int_max)%Z ->
     (rating_count_sum df <= exact_int_max)%Z /\ s <= 5) /\
    csat_percent df = Fin p /\
    p = IZR (3 + 2) / IZR (2 + 1 + 2 + 3 + 2) /\
    p = Spec.percent 4 df /\ 0 <= p <= 1.
Proof.
  apply (proj1 csat_score_percent 2 1 2 3 2)%Z; lia.
Defined.

(** In binary64 the score of 7205759403792796 five-star responses, a count
    that the widget accepts, is the number next above 5.  The sum
    [5 * 7205759403792796 = 2^55 + 12] lies halfway between two binary64
    numbers and converts to [2^55 + 16]; the count converts exactly; the
    quotient [5 + 4 / 7205759403792796] is nearer to [5 + 2^-50] than
    to 5. *)
Lemma csat_score_counterexample :
  let res_list := [0; 0; 0; 0; 7205759403792796]%Z in
  well_formed res_list /\
  Forall (fun c => (c <= widget_max)%Z) res_list /\
  rating_count_sum (df_survey res_list) = (2 ^ 55 + 12)%Z /\
  Binary64.of_int (rating_count_sum (df_survey res_list))
  = Binary64.of_int (2 ^ 55 + 16) /\
  Binary64.csat_score (df_survey res_list)
  = PrimFloat.next_up (Binary64.of_int 5) /\
  PrimFloat.leb (Binary64.csat_score (df_survey res_list)) (Binary64.of_int 5)
  = false.
Proof.
  cbv zeta. split; [wf_input |].
  split; [repeat constructor; vm_compute; discriminate |].
  repeat split; vm_compute; reflexivity.
Qed.

(** ** Standard deviation and standard errors *)

(** C2.  For a well-formed input with at least two respondents, and with the
    mean score as the script computes it, the script's sample standard
    deviation is [sqrt(sum(count_i * (level_i - score)^2) / (N - 1))], its
    standard error of the score is that deviation divided by [sqrt(N)], and
    its standard error of the percentage is
    [sqrt(percent * (1 - percent) / N)]. *)
Theorem std_errors_spec (res_list : list Z) :
  well_formed res_list ->
  (2 <= survey_count (df_survey res_list))%Z ->
  let df := df_survey res_list in
  csat_score df = Fin (Spec.score df) /\
  csat_percent df = Fin (Spec.percent 4 df) /\
  std_sample df = Fin (Spec.std df) /\
  std_csat_score df = Fin (Spec.se_score df) /\
  std_csat_percent df = Fin (Spec.se_percent 4 df).
Proof.
  intros Hwf HN df. fold df in HN. unfold survey_count in HN.
  pose proof (df_survey_rows res_list Hwf) as Hok. fold df in Hok.
  split; [apply csat_score_spec; lia |].
  split; [apply csat_percent_spec; lia |].
  split; [apply std_sample_spec; assumption |].
  split; [apply std_csat_score_spec; assumption |].
  apply std_csat_percent_spec; [assumption | lia].
Qed.

Lemma std_errors_spec_witness :
  let df := df_survey [1; 1; 2; 3; 2]%Z in
  csat_score df = Fin (Spec.score df) /\
  csat_percent df = Fin (Spec.percent 4 df) /\
  std_sample df = Fin (Spec.std df) /\
  std_csat_score df = Fin (Spec.se_score df) /\
  std_csat_percent df = Fin (Spec.se_percent 4 df).
Proof.
  apply (std_errors_spec [1; 1; 2; 3; 2]%Z).
  - wf_input.
  - vm_compute. discriminate.
Defined.

(** ** The interval builder and the critical value *)

(** C3, with a positive standard error.  For every point estimate, every
    standard error above zero, every number of degrees of freedom from one
    on and every confidence level strictly between 0 and 1, the interval
    routine returns exactly [(point - t_crit * SE, point + t_crit * SE)],
    where [t_crit] is the two-sided critical value of Student's t
    distribution at that level and those degrees of freedom: the one number
    [t >= 0] for which the interval from [-t] to [t] has probability [c].
    At level 0.95 and nine degrees of freedom [t_crit] lies between 2.2615
    and 2.2625 (so it is 2.262 to three decimals, not 1.96).  The quantile
    routine is [stats_t_ppf], modelled from the specification. *)
Theorem t_interval_exact (c : R) (df : Z) (point se : R) :
  0 < c < 1 -> (1 <= df)%Z -> 0 < se ->
  exists t_crit,
    Student.is_t_crit (Z.to_nat df) c t_crit /\
    (forall t, Student.is_t_crit (Z.to_nat df) c t -> t = t_crit) /\
    interval stats_t_ppf c df (Fin point) (Fin se)
    = Ok (Fin (point - t_crit * se), Fin (point + t_crit * se)) /\
    (c = 95 / 100 -> df = 9%Z ->
     22615 / 10000 < t_crit < 22625 / 10000 /\ t_crit <> 196 / 100).
Proof.
  intros Hc Hdf Hse.
  pose proof (stats_t_ppf_ok c df Hc Hdf) as Hq.
  destruct (interval_crit stats_t_ppf c df point se Hc Hdf Hse Hq)
    as [Hcrit Hci].
  exists (stats_t_ppf ((1 + c) / 2) df).
  split; [exact Hcrit |]. split.
  - intros t Ht. symmetry.
    apply (StudentFacts.t_crit_unique (Z.to_nat df) c); [lia | | ]; assumption.
  - split; [exact Hci |].
    intros -> ->. destruct Hq as [_ Hhi].
    replace ((1 + 95 / 100) / 2) with (975 / 1000) in * by field.
    pose proof (StudentValues.quantile9_bounds _ Hhi). split; lra.
Qed.

Lemma t_interval_exact_witness :
  exists t_crit,
    Student.is_t_crit 9 (95 / 100) t_crit /\
    (forall t, Student.is_t_crit 9 (95 / 100) t -> t = t_crit) /\
    interval stats_t_ppf (95 / 100) 9 (Fin 3) (Fin (1 / 2))
    = Ok (Fin (3 - t_crit * (1 / 2)), Fin (3 + t_crit * (1 / 2))) /\
    22615 / 10000 < t_crit < 22625 / 10000 /\ t_crit <> 196 / 100.
Proof.
  destruct (t_interval_exact (95 / 100) 9 3 (1 / 2))
    as (t_crit & Hcrit & Huniq & Hci & Hval); [lra | lia | lra |].
  exists t_crit. split; [exact Hcrit |]. split; [exact Huniq |].
  split; [exact Hci |]. apply Hval; reflexivity.
Defined.

(** With a standard error of zero the routine returns [nan] bounds, not the
    point itself, whatever the quantile routine. *)
Lemma t_interval_counterexample :
  ~ (exists (t_ppf : R -> Z -> R) t_crit,
        interval t_ppf (95 / 100) 9 (Fin 1) (Fin 0)
        = Ok (Fin (1 - t_crit * 0), Fin (1 + t_crit * 0))).
Proof.
  intros (t_ppf & t_crit & H).
  rewrite interval_ok in H by lra.
  rewrite ppf_pair_bad_scale in H by (apply fgt_fin_false; lra).
  discriminate H.
Qed.

(** ** Inputs the specification wants rejected *)

(** C4, as the script behaves.  With at most one respondent the script
    signals no error: it runs to the end, and every bound of its four
    intervals is [nan] (the degrees of freedom are not positive); with no
    respondent the score and the percentage are [nan] as well. *)
Theorem no_insufficient_data_error (t_ppf : R -> Z -> R)
    (res_list : list Z) (c : R) (survey_total : Z) :
  well_formed res_list ->
  (survey_count (df_survey res_list) <= 1)%Z ->
  0 < c < 1 ->
  exists r,
    csat_calculator t_ppf res_list c survey_total = Ok r /\
    score_ci r = (NaN, NaN) /\ percent_ci r = (NaN, NaN) /\
    score_ci_fpc r = (NaN, NaN) /\ percent_ci_fpc r = (NaN, NaN) /\
    (survey_count (df_survey res_list) = 0%Z ->
     score r = NaN /\ percent r = NaN).
Proof.
  intros Hwf HN Hc.
  rewrite csat_calculator_ok by lra. cbv zeta.
  eexists. split; [reflexivity |].
  cbn [score percent score_ci percent_ci score_ci_fpc percent_ci_fpc].
  unfold degrees_freedom.
  repeat split; try (apply ppf_pair_bad_df; lia);
    apply no_response; assumption.
Qed.

Lemma no_insufficient_data_error_witness :
  exists r,
    csat_calculator (fun q _ => Student.quantile2 q) [0; 0; 0; 0; 1]%Z
                    (95 / 100) 1 = Ok r /\
    score_ci r = (NaN, NaN) /\ percent_ci r = (NaN, NaN) /\
    score_ci_fpc r = (NaN, NaN) /\ percent_ci_fpc r = (NaN, NaN) /\
    (survey_count (df_survey [0; 0; 0; 0; 1]%Z) = 0%Z ->
     score r = NaN /\ percent r = NaN).
Proof.
  apply no_insufficient_data_error.
  - wf_input.
  - vm_compute. discriminate.
  - lra.
Defined.

(** A single five-star response: no error is signalled. *)
Lemma insufficient_data_counterexample :
  ~ (exists (t_ppf : R -> Z -> R) e,
        csat_calculator t_ppf [0; 0; 0; 0; 1]%Z (95 / 100) 1 = Raise e).
Proof.
  intros (t_ppf & e & He).
  rewrite csat_calculator_ok in He by lra. discriminate He.
Qed.

(** C5, as the script behaves.  When fewer surveys were sent out than
    responses came back the script signals no error and goes on to the
    corrected intervals.  For a total from one on, the correction factor is
    the square root of a negative number, and every bound of the two
    corrected intervals is [nan]; for a total of zero the factor is
    [sqrt(N)]. *)
Theorem no_validation_error (t_ppf : R -> Z -> R)
    (res_list : list Z) (c : R) (survey_total : Z) :
  well_formed res_list ->
  0 < c < 1 ->
  (0 <= survey_total < survey_count (df_survey res_list))%Z ->
  exists r,
    csat_calculator t_ppf res_list c survey_total = Ok r /\
    ((1 <= survey_total)%Z ->
     fpc (df_survey res_list) survey_total = NaN /\
     score_ci_fpc r = (NaN, NaN) /\ percent_ci_fpc r = (NaN, NaN)) /\
    (survey_total = 0%Z ->
     fpc (df_survey res_list) survey_total
     = Fin (sqrt (IZR (survey_count (df_survey res_list))))).
Proof.
  intros _ Hc Hpop.
  rewrite csat_calculator_ok by lra. cbv zeta.
  eexists. split; [reflexivity |]. split.
  - intros H1. cbn [score_ci_fpc percent_ci_fpc].
    rewrite fpc_nan by lia. rewrite py_max_nan, !fmul_nan_r.
    repeat split; apply ppf_pair_bad_scale; reflexivity.
  - intros ->. apply fpc_zero_total. lia.
Qed.

Lemma no_validation_error_witness :
  exists r,
    csat_calculator (fun q _ => Student.quantile2 q) [2; 1; 2; 3; 2]%Z
                    (95 / 100) 5 = Ok r /\
    ((1 <= 5)%Z ->
     fpc (df_survey [2; 1; 2; 3; 2]%Z) 5 = NaN /\
     score_ci_fpc r = (NaN, NaN) /\ percent_ci_fpc r = (NaN, NaN)) /\
    (5%Z = 0%Z ->
     fpc (df_survey [2; 1; 2; 3; 2]%Z) 5
     = Fin (sqrt (IZR (survey_count (df_survey [2; 1; 2; 3; 2]%Z))))).
Proof.
  apply no_validation_error.
  - wf_input.
  - lra.
  - vm_compute. split; [discriminate | reflexivity].
Defined.

(** Ten responses out of five surveys sent: no error is signalled. *)
Lemma validation_counterexample :
  ~ (exists (t_ppf : R -> Z -> R) e,
        csat_calculator t_ppf [2; 1; 2; 3; 2]%Z (95 / 100) 5 = Raise e).
Proof.
  intros (t_ppf & e & He).
  rewrite csat_calculator_ok in He by lra. discriminate He.
Qed.

(** ** Finite population correction with every survey answered *)

(** C6, as the script behaves.  With at least two respondents and a total
    equal to the number of respondents, the correction factor is 0 and the
    guard replaces it by [default_zero = 1e-8]: the scale passed to the
    interval routine is the standard error times [1e-8].  For each metric
    whose standard error is above zero (for the percentage: with a number of
    respondents that converts exactly) both corrected bounds are finite,
    they enclose the point estimate, they lie within the uncorrected
    interval, and they are at most a millionth as far apart as the
    uncorrected bounds. *)
Theorem fpc_guard_at_full_response (t_ppf : R -> Z -> R)
    (res_list : list Z) (c : R) :
  let df := df_survey res_list in
  let k := py_max (fpc df (survey_count df)) (Fin default_zero) in
  well_formed res_list ->
  (2 <= survey_count df)%Z ->
  0 < c < 1 ->
  Student.quantile_ok t_ppf c (degrees_freedom df) ->
  exists r,
    csat_calculator t_ppf res_list c (survey_count df) = Ok r /\
    fpc df (survey_count df) = Fin 0 /\
    k = Fin default_zero /\
    (0 < Spec.se_score df ->
     fmul (std_csat_score df) k = Fin (Spec.se_score df * default_zero) /\
     exists s lo hi lo' hi',
       score r = Fin s /\
       score_ci r = (Fin lo, Fin hi) /\
       score_ci_fpc r = (Fin lo', Fin hi') /\
       lo <= lo' /\ lo' <= s /\ s <= hi' /\ hi' <= hi /\
       (hi' - lo') * 1000000 <= hi - lo) /\
    (0 < Spec.se_percent 4 df ->
     (survey_count df <= exact_int_max)%Z ->
     fmul (std_csat_percent df) k
     = Fin (Spec.se_percent 4 df * default_zero) /\
     exists p lo hi lo' hi',
       percent r = Fin p /\
       percent_ci r = (Fin lo, Fin hi) /\
       percent_ci_fpc r = (Fin lo', Fin hi') /\
       lo <= lo' /\ lo' <= p /\ p <= hi' /\ hi' <= hi /\
       (hi' - lo') * 1000000 <= hi - lo).
Proof.
  intros df k Hwf HN Hc Hq.
  destruct (report_exists t_ppf res_list c (survey_count df) Hc) as [r E].
  destruct (fpc_fin df (survey_count df)) as (f & Ef & _ & Hf0 & _); [lia |].
  destruct (fpc_guarded df (survey_count df)) as (k' & Ek & [Hk _] & Hk0);
    [lia |].
  rewrite (Hf0 eq_refl) in Ef. rewrite (Hk0 eq_refl) in Ek.
  pose proof default_zero_pos as [He He1].
  destruct (report_uncorrected t_ppf res_list c _ Hwf HN Hc Hq r E)
    as (Hsc & Hpc & Hs & Hp).
  destruct (report_corrected t_ppf res_list c _ Hwf HN Hc Hq r _ Ek He E)
    as [Hsf Hpf].
  pose proof (report_crit_pos t_ppf res_list c HN Hc Hq) as Ht.
  pose proof (df_survey_rows res_list Hwf) as Hok.
  fold df in Hsc, Hpc, Hs, Hp, Hsf, Hpf, Ht, Hok.
  exists r. split; [exact E |]. split; [exact Ef |]. split; [exact Ek |].
  unfold k. rewrite Ek. unfold survey_count in HN.
  split.
  - intros Hse. split.
    + rewrite std_csat_score_spec by assumption. reflexivity.
    + do 5 eexists. split; [exact Hsc |]. split; [exact (Hs Hse) |].
      split; [exact (Hsf Hse) |].
      destruct (scaled_within (Spec.score df) _ _ default_zero Ht Hse)
        as (G1 & G2 & G3 & G4); [lra |].
      repeat (split; [assumption |]).
      apply guarded_width; assumption.
  - intros Hse _. split.
    + rewrite std_csat_percent_spec by (try assumption; lia). reflexivity.
    + do 5 eexists. split; [exact Hpc |]. split; [exact (Hp Hse) |].
      split; [exact (Hpf Hse) |].
      destruct (scaled_within (Spec.percent 4 df) _ _ default_zero Ht Hse)
        as (G1 & G2 & G3 & G4); [lra |].
      repeat (split; [assumption |]).
      apply guarded_width; assumption.
Qed.

Lemma fpc_guard_at_full_response_witness :
  let t_ppf := fun (q : R) (_ : Z) => Student.quantile2 q in
  let df := df_survey [0; 0; 1; 1; 1]%Z in
  let k := py_max (fpc df (survey_count df)) (Fin default_zero) in
  0 < Spec.se_score df /\ 0 < Spec.se_percent 4 df /\
  (survey_count df <= exact_int_max)%Z /\
  exists r,
    csat_calculator t_ppf [0; 0; 1; 1; 1]%Z (95 / 100) (survey_count df)
    = Ok r /\
    fpc df (survey_count df) = Fin 0 /\
    k = Fin default_zero /\
    (0 < Spec.se_score df ->
     fmul (std_csat_score df) k = Fin (Spec.se_score df * default_zero) /\
     exists s lo hi lo' hi',
       score r = Fin s /\
       score_ci r = (Fin lo, Fin hi) /\
       score_ci_fpc r = (Fin lo', Fin hi') /\
       lo <= lo' /\ lo' <= s /\ s <= hi' /\ hi' <= hi /\
       (hi' - lo') * 1000000 <= hi - lo) /\
    (0 < Spec.se_percent 4 df ->
     (survey_count df <= exact_int_max)%Z ->
     fmul (std_csat_percent df) k
     = Fin (Spec.se_percent 4 df * default_zero) /\
     exists p lo hi lo' hi',
       percent r = Fin p /\
       percent_ci r = (Fin lo, Fin hi) /\
       percent_ci_fpc r = (Fin lo', Fin hi') /\
       lo <= lo' /\ lo' <= p /\ p <= hi' /\ hi' <= hi /\
       (hi' - lo') * 1000000 <= hi - lo).
Proof.
  intros t_ppf df k.
  destruct three_upper_ratings as (_ & _ & _ & _ & Hs & Hp).
  split; [exact Hs |].
  split; [fold df in Hp; rewrite Hp; apply sqrt_lt_R0; lra |].
  split; [vm_compute; discriminate |].
  apply (fpc_guard_at_full_response t_ppf [0; 0; 1; 1; 1]%Z (95 / 100)).
  - wf_input.
  - vm_compute. discriminate.
  - lra.
  - apply quantile2_ok; [lra | reflexivity].
Defined.

(** With ten five-star responses out of ten surveys the corrected interval
    of the percentage is not finite; and with one response each at three,
    four and five stars out of three surveys the corrected standard error of
    the percentage, [sqrt(2/27) * 1e-8], is below [default_zero]: the guard
    bounds the factor, not the product. *)
Lemma fpc_guard_counterexample :
  ~ (exists (t_ppf : R -> Z -> R) r lo hi,
        csat_calculator t_ppf [0; 0; 0; 0; 10]%Z (95 / 100) 10 = Ok r /\
        percent_ci_fpc r = (Fin lo, Fin hi)) /\
  (let df := df_survey [0; 0; 1; 1; 1]%Z in
   exists x,
     fmul (std_csat_percent df)
          (py_max (fpc df (survey_count df)) (Fin default_zero)) = Fin x /\
     0 < x < default_zero).
Proof.
  split.
  - intros (t_ppf & r & lo & hi & E & H).
    destruct (all_five_stars_report t_ppf (95 / 100) 10 r) as
      (_ & _ & _ & _ & _ & _ & Hp); [lra | exact E |].
    rewrite Hp in H. discriminate H.
  - cbv zeta. set (df := df_survey [0; 0; 1; 1; 1]%Z).
    destruct three_upper_ratings as (HN & _ & _ & _ & _ & Hse).
    fold df in HN, Hse.
    destruct (fpc_guarded df (survey_count df)) as (k & Ek & _ & Hk);
      [rewrite HN; lia |].
    rewrite Ek, (Hk eq_refl).
    rewrite std_csat_percent_spec;
      [| apply df_survey_rows; wf_input
       | unfold survey_count in HN; rewrite HN; lia].
    rewrite Hse. cbn [fmul]. eexists. split; [reflexivity |].
    pose proof sqrt_2_27 as [H1 H2]. pose proof default_zero_pos as [H3 _].
    split; nra.
Qed.

(** ** Confidence level and width *)




(** ** Finite population correction and width *)

(** C8, for positive standard errors.  With at least two respondents and a
    total above the number of respondents the correction factor lies
    strictly between 0 and 1, and for each metric whose standard error is
    above zero the corrected interval is at most as wide as the uncorrected
    one. *)
Theorem fpc_narrows (t_ppf : R -> Z -> R) (res_list : list Z) (c : R)
    (survey_total : Z) :
  let df := df_survey res_list in
  well_formed res_list ->
  (2 <= survey_count df)%Z ->
  (survey_count df < survey_total)%Z ->
  0 < c < 1 ->
  Student.quantile_ok t_ppf c (degrees_freedom df) ->
  exists r f,
    csat_calculator t_ppf res_list c survey_total = Ok r /\
    fpc df survey_total = Fin f /\ 0 < f < 1 /\
    (0 < Spec.se_score df ->
     fle (width (score_ci_fpc r)) (width (score_ci r)) = true) /\
    (0 < Spec.se_percent 4 df ->
     fle (width (percent_ci_fpc r)) (width (percent_ci r)) = true).
Proof.
  intros df Hwf HN Hpop Hc Hq.
  destruct (report_exists t_ppf res_list c survey_total Hc) as [r E].
  destruct (fpc_fin df survey_total) as (f & Ef & [_ Hf1] & _ & Hf0); [lia |].
  destruct (fpc_guarded df survey_total) as (k & Ek & [Hk0 Hk1] & _); [lia |].
  destruct (report_uncorrected t_ppf res_list c _ Hwf HN Hc Hq r E)
    as (_ & _ & Hs & Hp).
  destruct (report_corrected t_ppf res_list c _ Hwf HN Hc Hq r _ Ek Hk0 E)
    as [Hsf Hpf].
  pose proof (report_crit_pos t_ppf res_list c HN Hc Hq) as Ht.
  exists r, f. split; [exact E |]. split; [exact Ef |].
  split; [split; [apply Hf0; lia | exact Hf1] |].
  split; intros Hse.
  - rewrite (Hsf Hse), (Hs Hse), !width_fin. apply fle_fin_true.
    apply width_scaled_le; [exact Ht | exact Hse | lra].
  - rewrite (Hpf Hse), (Hp Hse), !width_fin. apply fle_fin_true.
    apply width_scaled_le; [exact Ht | exact Hse | lra].
Qed.

Lemma fpc_narrows_witness :
  let t_ppf := fun (q : R) (_ : Z) => Student.quantile2 q in
  let df := df_survey [0; 0; 1; 1; 1]%Z in
  0 < Spec.se_score df /\ 0 < Spec.se_percent 4 df /\
  exists r f,
    csat_calculator t_ppf [0; 0; 1; 1; 1]%Z (95 / 100) 30 = Ok r /\
    fpc df 30 = Fin f /\ 0 < f < 1 /\
    (0 < Spec.se_score df ->
     fle (width (score_ci_fpc r)) (width (score_ci r)) = true) /\
    (0 < Spec.se_percent 4 df ->
     fle (width (percent_ci_fpc r)) (width (percent_ci r)) = true).
Proof.
  intros t_ppf df.
  destruct three_upper_ratings as (_ & _ & _ & _ & Hs & Hp).
  split; [exact Hs |].
  split; [fold df in Hp; rewrite Hp; apply sqrt_lt_R0; lra |].
  apply (fpc_narrows t_ppf [0; 0; 1; 1; 1]%Z (95 / 100) 30).
  - wf_input.
  - vm_compute. discriminate.
  - vm_compute. reflexivity.
  - lra.
  - apply quantile2_ok; [lra | reflexivity].
Defined.

(** With ten five-star responses out of twenty surveys both percentage
    intervals are [nan], and no comparison of their widths holds. *)
Lemma fpc_narrows_counterexample :
  ~ (exists (t_ppf : R -> Z -> R) r,
        csat_calculator t_ppf [0; 0; 0; 0; 10]%Z (95 / 100) 20 = Ok r /\
        fle (width (percent_ci_fpc r)) (width (percent_ci r)) = true).
Proof.
  intros (t_ppf & r & E & H).
  destruct (all_five_stars_report t_ppf (95 / 100) 20 r) as
    (_ & _ & _ & _ & Hp & _ & Hpf); [lra | exact E |].
  rewrite Hp, Hpf in H. discriminate H.
Qed.

(** ** Degenerate distribution *)

(** C9, as the script behaves.  For ten five-star responses, at any
    confidence level strictly between 0 and 1, the script raises nothing
    and reports score 5.0 and percentage 1.0; the standard error of the
    percentage is exactly 0; a scale of zero is not accepted by the interval
    routine, so both bounds of the percentage interval are [nan], not 1.0. *)
Theorem all_top_rating (t_ppf : R -> Z -> R) (c : R) (survey_total : Z) :
  0 < c < 1 ->
  exists r,
    csat_calculator t_ppf [0; 0; 0; 0; 10]%Z c survey_total = Ok r /\
    n_response r = 10%Z /\ score r = Fin 5 /\ percent r = Fin 1 /\
    std_csat_percent (df_survey [0; 0; 0; 0; 10]%Z) = Fin 0 /\
    percent_ci r = (NaN, NaN).
Proof.
  intros Hc.
  destruct (report_exists t_ppf [0; 0; 0; 0; 10]%Z c survey_total Hc) as [r E].
  assert (Hc' : 0 <= c <= 1) by lra.
  pose proof (all_five_stars_report t_ppf c survey_total r Hc' E) as H.
  destruct all_five_stars as (_ & _ & _ & _ & _ & Hsp).
  exists r. tauto.
Qed.

Lemma all_top_rating_witness :
  exists r,
    csat_calculator (fun q _ => Student.quantile2 q) [0; 0; 0; 0; 10]%Z
                    (95 / 100) 10 = Ok r /\
    n_response r = 10%Z /\ score r = Fin 5 /\ percent r = Fin 1 /\
    std_csat_percent (df_survey [0; 0; 0; 0; 10]%Z) = Fin 0 /\
    percent_ci r = (NaN, NaN).
Proof.
  apply all_top_rating. lra.
Defined.

(** No quantile routine makes the percentage interval the point 1.0. *)
Lemma all_top_rating_counterexample :
  ~ (exists (t_ppf : R -> Z -> R) r,
        csat_calculator t_ppf [0; 0; 0; 0; 10]%Z (95 / 100) 10 = Ok r /\
        percent_ci r = (Fin 1, Fin 1)).
Proof.
  intros (t_ppf & r & E & H).
  destruct (all_five_stars_report t_ppf (95 / 100) 10 r) as
    (_ & _ & _ & _ & Hp & _); [lra | exact E |].
  rewrite Hp in H. discriminate H.
Qed.

(** ** Bounds outside the unit interval *)

(** C10.  The bounds of the percentage interval are not clamped to the unit
    interval.  With an exact quantile routine, the counts 0, 0, 1, 1, 1 at
    level 0.95 give the percentage 2/3 and an upper bound above 1 (the
    critical value is about 4.30 and the standard error about 0.272), and
    the counts 1, 1, 0, 1, 0 give the percentage 1/3 and a lower bound below
    0. *)
Theorem percent_interval_unclamped (t_ppf : R -> Z -> R) :
  Student.quantile_ok t_ppf (95 / 100) 2 ->
  (exists r hi,
      well_formed [0; 0; 1; 1; 1]%Z /\
      csat_calculator t_ppf [0; 0; 1; 1; 1]%Z (95 / 100) 3 = Ok r /\
      n_response r = 3%Z /\ percent r = Fin (2 / 3) /\
      snd (percent_ci r) = Fin hi /\ 1 < hi) /\
  (exists r lo,
      well_formed [1; 1; 0; 1; 0]%Z /\
      csat_calculator t_ppf [1; 1; 0; 1; 0]%Z (95 / 100) 3 = Ok r /\
      n_response r = 3%Z /\ percent r = Fin (1 / 3) /\
      fst (percent_ci r) = Fin lo /\ lo < 0).
Proof.
  intros Hq.
  pose proof (t_ppf_2_975 t_ppf Hq) as [Ht1 Ht2].
  pose proof sqrt_2_27 as [Hs1 Hs2].
  assert (Hc : 0 < 95 / 100 < 1) by lra.
  split.
  - destruct three_upper_ratings as (HN & Hdf & _ & Hp & _ & Hse).
    assert (Hwf : well_formed [0; 0; 1; 1; 1]%Z)
      by wf_input.
    destruct (report_exists t_ppf [0; 0; 1; 1; 1]%Z (95 / 100) 3 Hc) as [r E].
    assert (HN2 : (2 <= survey_count (df_survey [0; 0; 1; 1; 1]%Z))%Z)
      by (rewrite HN; lia).
    assert (Hq' : Student.quantile_ok t_ppf (95 / 100)
                    (degrees_freedom (df_survey [0; 0; 1; 1; 1]%Z)))
      by (rewrite Hdf; exact Hq).
    destruct (report_uncorrected t_ppf [0; 0; 1; 1; 1]%Z (95 / 100) 3
                Hwf HN2 Hc Hq' r E) as (_ & Hpr & _ & Hci).
    rewrite Hdf, Hp, Hse in Hci. rewrite Hp in Hpr.
    exists r, (2 / 3 + t_ppf ((1 + 95 / 100) / 2) 2%Z * sqrt (2 / 27)).
    split; [exact Hwf |]. split; [exact E |]. split.
    + rewrite csat_calculator_ok in E by lra. injection E as <-. exact HN.
    + split; [exact Hpr |]. rewrite Hci by lra. split; [reflexivity | nra].
  - destruct three_lower_ratings as (HN & Hdf & Hp & Hse).
    assert (Hwf : well_formed [1; 1; 0; 1; 0]%Z)
      by wf_input.
    destruct (report_exists t_ppf [1; 1; 0; 1; 0]%Z (95 / 100) 3 Hc) as [r E].
    assert (HN2 : (2 <= survey_count (df_survey [1; 1; 0; 1; 0]%Z))%Z)
      by (rewrite HN; lia).
    assert (Hq' : Student.quantile_ok t_ppf (95 / 100)
                    (degrees_freedom (df_survey [1; 1; 0; 1; 0]%Z)))
      by (rewrite Hdf; exact Hq).
    destruct (report_uncorrected t_ppf [1; 1; 0; 1; 0]%Z (95 / 100) 3
                Hwf HN2 Hc Hq' r E) as (_ & Hpr & _ & Hci).
    rewrite Hdf, Hp, Hse in Hci. rewrite Hp in Hpr.
    exists r, (1 / 3 - t_ppf ((1 + 95 / 100) / 2) 2%Z * sqrt (2 / 27)).
    split; [exact Hwf |]. split; [exact E |]. split.
    + rewrite csat_calculator_ok in E by lra. injection E as <-. exact HN.
    + split; [exact Hpr |]. rewrite Hci by lra. split; [reflexivity | nra].
Qed.

Lemma percent_interval_unclamped_witness :
  let t_ppf := fun (q : R) (_ : Z) => Student.quantile2 q in
  (exists r hi,
      well_formed [0; 0; 1; 1; 1]%Z /\
      csat_calculator t_ppf [0; 0; 1; 1; 1]%Z (95 / 100) 3 = Ok r /\
      n_response r = 3%Z /\ percent r = Fin (2 / 3) /\
      snd (percent_ci r) = Fin hi /\ 1 < hi) /\
  (exists r lo,
      well_formed [1; 1; 0; 1; 0]%Z /\
      csat_calculator t_ppf [1; 1; 0; 1; 0]%Z (95 / 100) 3 = Ok r /\
      n_response r = 3%Z /\ percent r = Fin (1 / 3) /\
      fst (percent_ci r) = Fin lo /\ lo < 0).
Proof.
  intros t_ppf. apply (percent_interval_unclamped t_ppf).
  apply quantile2_ok; [lra | reflexivity].
Defined.

(** * Further properties of the script *)

(** ** Replicated samples *)

Lemma scaled_sums (k c1 c2 c3 c4 c5 : Z) :
  let df := df_survey [c1; c2; c3; c4; c5] in
  let df' := df_survey (map (Z.mul k) [c1; c2; c3; c4; c5]) in
  count_sum df' = (k * count_sum df)%Z /\
  rating_count_sum df' = (k * rating_count_sum df)%Z /\
  top_box_sum df' = (k * top_box_sum df)%Z.
Proof.
  cbv zeta. cbn [map].
  destruct (df_survey_sums c1 c2 c3 c4 c5) as (E1 & E2 & E3).
  destruct (df_survey_sums (k * c1) (k * c2) (k * c3) (k * c4) (k * c5))
    as (F1 & F2 & F3).
  rewrite E1, E2, E3, F1, F2, F3. repeat split; ring.
Qed.

(** X2.  Multiplying every count by the same [k >= 1] changes neither the
    score nor the percentage, as long as five times the replicated number
    of respondents does not exceed [exact_int_max]: every sum of either
    table then converts to [float64] without rounding, and the two
    quotients are quotients of the same numbers. *)
Theorem score_percent_scale_invariant (k : Z) (res_list : list Z) :
  well_formed res_list -> (1 <= k)%Z ->
  (1 <= survey_count (df_survey res_list))%Z ->
  (5 * (k * survey_count (df_survey res_list)) <= exact_int_max)%Z ->
  let df := df_survey res_list in
  let df' := df_survey (map (Z.mul k) res_list) in
  (rating_count_sum df' <= exact_int_max)%Z /\
  (count_sum df' <= exact_int_max)%Z /\
  csat_score df' = csat_score df /\
  csat_percent df' = csat_percent df.
Proof.
  intros Hwf Hk HN Hex df df'. unfold survey_count in *. fold df in HN, Hex.
  pose proof (df_survey_rows res_list Hwf) as Hok. fold df in Hok.
  pose proof (rating_count_sum_bounds _ Hok) as Hr.
  pose proof (top_box_sum_bounds _ Hok) as Ht.
  unfold df, df' in *. clear df df'.
  destruct (well_formed_inv _ Hwf) as (c1 & c2 & c3 & c4 & c5 & -> & _).
  destruct (scaled_sums k c1 c2 c3 c4 c5) as (E1 & E2 & E3).
  set (df := df_survey [c1; c2; c3; c4; c5]) in *.
  assert (Hn : IZR (count_sum df) <> 0) by (apply not_0_IZR; lia).
  assert (Hkr : IZR k <> 0) by (apply not_0_IZR; lia).
  assert (Hkn : IZR (k * count_sum df) <> 0) by (apply not_0_IZR; nia).
  split; [rewrite E2; nia |]. split; [rewrite E1; nia |].
  unfold csat_score, csat_percent. rewrite E1, E2, E3. unfold of_int.
  rewrite !fdiv_fin by assumption.
  rewrite !mult_IZR. split; f_equal; field; split; assumption.
Qed.

Lemma score_percent_scale_invariant_witness :
  let df := df_survey [2; 1; 2; 3; 2]%Z in
  let df' := df_survey (map (Z.mul 3) [2; 1; 2; 3; 2]%Z) in
  (rating_count_sum df' <= exact_int_max)%Z /\
  (count_sum df' <= exact_int_max)%Z /\
  csat_score df' = csat_score df /\
  csat_percent df' = csat_percent df.
Proof.
  apply (score_percent_scale_invariant 3 [2; 1; 2; 3; 2]%Z);
    [wf_input | lia | vm_compute; discriminate | vm_compute; discriminate].
Defined.

(** ** Bounds on the standard errors *)

(** X5.  With [N >= 1] respondents the standard error of the percentage is
    a real number between 0 and [0.51 / sqrt(N)].  Over the reals it is at
    most [0.5 / sqrt(N)], with equality at a percentage of one half; the
    rounded result can exceed that bound in the last place. *)
Theorem std_percent_bound (res_list : list Z) :
  well_formed res_list ->
  (1 <= survey_count (df_survey res_list))%Z ->
  exists se,
    std_csat_percent (df_survey res_list) = Fin se /\
    0 <= se <= 51 / 100 / sqrt (IZR (survey_count (df_survey res_list))).
Proof.
  intros Hwf HN. unfold survey_count in *.
  pose proof (df_survey_rows res_list Hwf) as Hok.
  exists (Spec.se_percent 4 (df_survey res_list)).
  split; [apply std_csat_percent_spec; assumption |].
  split; [apply sqrt_pos |].
  unfold Spec.se_percent. rewrite total_count_sum.
  pose proof (percent_range _ Hok HN) as Hp.
  rewrite <- percent_top_box_sum in Hp.
  set (p := Spec.percent 4 (df_survey res_list)) in *.
  set (n := IZR (count_sum (df_survey res_list))).
  assert (Hn : 0 < n) by (apply IZR_lt; lia).
  assert (Hsn : 0 < sqrt n) by (apply sqrt_lt_R0; exact Hn).
  apply Rle_trans with (1 / (2 * sqrt n)).
  - replace (1 / (2 * sqrt n)) with (sqrt (/ 4 / n)).
    + apply sqrt_le_1_alt.
      apply Rmult_le_compat_r; [apply Rlt_le, Rinv_0_lt_compat, Hn |].
      pose proof (pow2_ge_0 (p - / 2)) as Hsq.
      replace ((p - / 2) ^ 2) with (/ 4 - p * (1 - p)) in Hsq by field. lra.
    + rewrite sqrt_div_alt by exact Hn.
      replace (/ 4) with (/ 2 * / 2) by field.
      rewrite sqrt_square by lra. field. lra.
  - replace (1 / (2 * sqrt n)) with (50 / 100 * / sqrt n) by (field; lra).
    unfold Rdiv at 2.
    apply Rmult_le_compat_r; [apply Rlt_le, Rinv_0_lt_compat, Hsn | lra].
Qed.

Lemma std_percent_bound_witness :
  exists se,
    std_csat_percent (df_survey [2; 1; 2; 3; 2]%Z) = Fin se /\
    0 <= se
    <= 51 / 100 / sqrt (IZR (survey_count (df_survey [2; 1; 2; 3; 2]%Z))).
Proof.
  apply std_percent_bound; [wf_input | vm_compute; discriminate].
Defined.

(** Sum of squared deviations through the raw moments. *)
Lemma sq_dev_expand (m : R) (rows : list row) :
  Spec.rsum (map (fun r => IZR (count r) * (IZR (rating r) - m) ^ 2) rows)
  = Spec.rsum (map (fun r => IZR (count r) * IZR (rating r) ^ 2) rows)
    - 2 * m * Spec.rsum (map (fun r => IZR (rating r) * IZR (count r)) rows)
    + m ^ 2 * Spec.rsum (map (fun r => IZR (count r)) rows).
Proof.
  unfold Spec.rsum. induction rows as [|r l IH]; cbn [map fold_right].
  - ring.
  - rewrite IH. ring.
Qed.

Lemma second_moment_bound (rows : list row) :
  Forall row_ok rows ->
  Spec.rsum (map (fun r => IZR (count r) * IZR (rating r) ^ 2) rows)
  <= 6 * Spec.rsum (map (fun r => IZR (rating r) * IZR (count r)) rows)
     - 5 * Spec.rsum (map (fun r => IZR (count r)) rows).
Proof.
  unfold Spec.rsum.
  induction 1 as [|r l [[Hlo Hhi] Hc] _ IH]; cbn [map fold_right]; [lra |].
  apply IZR_le in Hlo, Hhi, Hc.
  assert (IZR (count r) * ((IZR (rating r) - 1) * (5 - IZR (rating r))) >= 0).
  { apply Rle_ge, Rmult_le_pos; [exact Hc | apply Rmult_le_pos; lra]. }
  nra.
Qed.

Lemma sq_dev_bound (df : list row) :
  Forall row_ok df -> (1 <= count_sum df)%Z ->
  Spec.rsum (map (fun r => IZR (count r) * (IZR (rating r) - Spec.score df) ^ 2)
                 df)
  <= Spec.total df * ((Spec.score df - 1) * (5 - Spec.score df)).
Proof.
  intros Hok HN. rewrite sq_dev_expand.
  pose proof (second_moment_bound df Hok) as H2.
  fold (Spec.total df) in H2 |- *.
  assert (Hn : 0 < Spec.total df)
    by (rewrite total_count_sum; apply IZR_lt; lia).
  assert (E : Spec.rsum (map (fun r => IZR (rating r) * IZR (count r)) df)
              = Spec.score df * Spec.total df).
  { unfold Spec.score. field. lra. }
  rewrite E in *. nra.
Qed.

(** X6.  With [N >= 2] respondents the sample standard deviation is at most
    [2.01 * sqrt(N / (N - 1))] and the standard error of the score at most
    [2.01 / sqrt(N - 1)]: the ratings lie between 1 and 5.  Over the reals
    the factor is 2, attained by equal numbers of one-star and five-star
    responses; the rounded results can exceed that bound in the last
    place. *)
Theorem std_score_bound (res_list : list Z) :
  well_formed res_list ->
  (2 <= survey_count (df_survey res_list))%Z ->
  let n := IZR (survey_count (df_survey res_list)) in
  exists sd se,
    std_sample (df_survey res_list) = Fin sd /\
    std_csat_score (df_survey res_list) = Fin se /\
    0 <= sd <= 201 / 100 * sqrt (n / (n - 1)) /\
    0 <= se <= 201 / 100 / sqrt (n - 1).
Proof.
  intros Hwf HN n. unfold survey_count in *.
  pose proof (df_survey_rows res_list Hwf) as Hok.
  set (df := df_survey res_list) in *.
  exists (Spec.std df), (Spec.se_score df).
  split; [apply std_sample_spec; assumption |].
  split; [apply std_csat_score_spec; assumption |].
  assert (Hn : 2 <= n) by (apply IZR_le; exact HN).
  assert (Hv : Spec.variance df <= 4 * (n / (n - 1))).
  { unfold Spec.variance.
    pose proof (sq_dev_bound df Hok ltac:(lia)) as Hb.
    rewrite total_count_sum in *. fold n in Hb |- *.
    set (w := Spec.rsum _) in *.
    assert (Hm : (Spec.score df - 1) * (5 - Spec.score df) <= 4).
    { pose proof (pow2_ge_0 (Spec.score df - 3)) as Hsq.
      replace ((Spec.score df - 3) ^ 2)
        with (4 - (Spec.score df - 1) * (5 - Spec.score df)) in Hsq by ring.
      lra. }
    assert (Hw : w <= 4 * n) by nra.
    replace (4 * (n / (n - 1))) with (4 * n / (n - 1)) by (field; lra).
    apply Rmult_le_compat_r; [apply Rlt_le, Rinv_0_lt_compat; lra | exact Hw]. }
  assert (Hsd : Spec.std df <= 2 * sqrt (n / (n - 1))).
  { unfold Spec.std.
    replace (2 * sqrt (n / (n - 1))) with (sqrt (4 * (n / (n - 1)))).
    - apply sqrt_le_1_alt, Hv.
    - rewrite sqrt_mult_alt by lra.
      replace 4 with (2 * 2) by ring. rewrite sqrt_square by lra. reflexivity. }
  assert (Hsn : 0 < sqrt n) by (apply sqrt_lt_R0; lra).
  assert (Hsn1 : 0 < sqrt (n - 1)) by (apply sqrt_lt_R0; lra).
  assert (Hq : 0 <= sqrt (n / (n - 1))) by apply sqrt_pos.
  split; [split; [apply sqrt_pos | lra] |].
  split.
  - unfold Spec.se_score.
    apply Rmult_le_pos; [apply sqrt_pos | apply Rlt_le, Rinv_0_lt_compat].
    rewrite total_count_sum. exact Hsn.
  - unfold Spec.se_score. rewrite total_count_sum. fold n.
    rewrite sqrt_div_alt in Hsd, Hq by lra.
    apply Rmult_le_reg_r with (sqrt n); [exact Hsn |].
    replace (Spec.std df / sqrt n * sqrt n) with (Spec.std df) by (field; lra).
    replace (201 / 100 / sqrt (n - 1) * sqrt n)
      with (201 / 100 * (sqrt n / sqrt (n - 1))) by (field; lra).
    lra.
Qed.

Lemma std_score_bound_witness :
  let n := IZR (survey_count (df_survey [2; 1; 2; 3; 2]%Z)) in
  exists sd se,
    std_sample (df_survey [2; 1; 2; 3; 2]%Z) = Fin sd /\
    std_csat_score (df_survey [2; 1; 2; 3; 2]%Z) = Fin se /\
    0 <= sd <= 201 / 100 * sqrt (n / (n - 1)) /\
    0 <= se <= 201 / 100 / sqrt (n - 1).
Proof.
  apply std_score_bound; [wf_input | vm_compute; discriminate].
Defined.

(** ** The correction factor *)

Lemma fpc_value (df : list row) (survey_total : Z) :
  (2 <= survey_count df <= survey_total)%Z ->
  fpc df survey_total
  = Fin (sqrt (IZR (survey_total - survey_count df) / IZR (survey_total - 1))).
Proof.
  intros [HN Hpop]. unfold fpc, of_int.
  assert (Ha : 0 <= IZR (survey_total - survey_count df)) by (apply IZR_le; lia).
  assert (Hb : 0 < IZR (survey_total - 1)) by (apply IZR_lt; lia).
  rewrite fdiv_fin by lra. apply fsqrt_fin.
  apply Rmult_le_pos; [exact Ha | apply Rlt_le, Rinv_0_lt_compat, Hb].
Qed.

(** X7.  For at least two respondents the correction factor does not
    decrease when the total grows, from the number of respondents up to the
    largest total the widget takes, and it stays below 1.  (Over the reals
    it grows strictly; two large totals can give the same rounded
    factor.) *)
Theorem fpc_increasing (df : list row) (total1 total2 : Z) :
  (2 <= survey_count df)%Z ->
  (survey_count df <= total1)%Z -> (total1 <= total2)%Z ->
  (total2 <= widget_max)%Z ->
  exists f1 f2,
    fpc df total1 = Fin f1 /\ fpc df total2 = Fin f2 /\
    0 <= f1 <= f2 /\ f2 < 1.
Proof.
  intros HN H1 H12 _.
  rewrite !fpc_value by lia.
  set (n := survey_count df) in *.
  eexists _, _. split; [reflexivity |]. split; [reflexivity |].
  assert (Ha1 : 0 <= IZR (total1 - n)) by (apply IZR_le; lia).
  assert (Hb1 : 0 < IZR (total1 - 1)) by (apply IZR_lt; lia).
  assert (Hb2 : 0 < IZR (total2 - 1)) by (apply IZR_lt; lia).
  assert (Hab2 : IZR (total2 - n) < IZR (total2 - 1)) by (apply IZR_lt; lia).
  assert (Hr1 : 0 <= IZR (total1 - n) / IZR (total1 - 1))
    by (apply Rmult_le_pos; [lra | apply Rlt_le, Rinv_0_lt_compat, Hb1]).
  assert (Hle : IZR (total1 - n) / IZR (total1 - 1)
                <= IZR (total2 - n) / IZR (total2 - 1)).
  { apply Rmult_le_reg_r with (IZR (total1 - 1) * IZR (total2 - 1));
      [apply Rmult_lt_0_compat; assumption |].
    replace (IZR (total1 - n) / IZR (total1 - 1)
             * (IZR (total1 - 1) * IZR (total2 - 1)))
      with (IZR (total1 - n) * IZR (total2 - 1)) by (field; lra).
    replace (IZR (total2 - n) / IZR (total2 - 1)
             * (IZR (total1 - 1) * IZR (total2 - 1)))
      with (IZR (total2 - n) * IZR (total1 - 1)) by (field; lra).
    rewrite <- !mult_IZR. apply IZR_le. nia. }
  split; [split; [apply sqrt_pos | apply sqrt_le_1_alt; lra] |].
  rewrite <- sqrt_1. apply sqrt_lt_1_alt. split; [lra |].
  apply Rmult_lt_reg_r with (IZR (total2 - 1)); [exact Hb2 |].
  replace (IZR (total2 - n) / IZR (total2 - 1) * IZR (total2 - 1))
    with (IZR (total2 - n)) by (field; lra).
  lra.
Qed.

Lemma fpc_increasing_witness :
  exists f1 f2,
    fpc (df_survey [2; 1; 2; 3; 2]%Z) 10 = Fin f1 /\
    fpc (df_survey [2; 1; 2; 3; 2]%Z) 20 = Fin f2 /\
    0 <= f1 <= f2 /\ f2 < 1.
Proof.
  apply fpc_increasing; vm_compute; first [discriminate | reflexivity].
Defined.

(** X8.  For a total of at least the number of respondents (two or more),
    the guard [max(fpc, default_zero)] leaves the factor as it is exactly
    when [total - 1 <= 10^16 * (total - N)]; so it replaces the factor not
    only for a total equal to [N]. *)
Theorem guard_inactive_iff (df : list row) (survey_total : Z) :
  (2 <= survey_count df <= survey_total)%Z ->
  (py_max (fpc df survey_total) (Fin default_zero) = fpc df survey_total
   <-> (survey_total - 1
        <= 10000000000000000 * (survey_total - survey_count df))%Z).
Proof.
  intros H. rewrite fpc_value by exact H. destruct H as [HN Hpop].
  set (a := IZR (survey_total - survey_count df)).
  set (b := IZR (survey_total - 1)).
  assert (Ha : 0 <= a) by (apply IZR_le; lia).
  assert (Hb : 0 < b) by (apply IZR_lt; lia).
  assert (Hr : 0 <= a / b)
    by (apply Rmult_le_pos; [lra | apply Rlt_le, Rinv_0_lt_compat, Hb]).
  assert (He : default_zero = sqrt (/ 10000000000000000)).
  { unfold default_zero.
    replace (/ 10000000000000000) with (/ 100000000 * / 100000000) by field.
    rewrite sqrt_square; lra. }
  assert (Hint : (survey_total - 1
                  <= 10000000000000000 * (survey_total - survey_count df))%Z
                 <-> b <= 10000000000000000 * a).
  { unfold a, b. rewrite <- mult_IZR. split; [apply IZR_le | apply le_IZR]. }
  rewrite Hint. unfold py_max, fgt.
  destruct (Rlt_dec (sqrt (a / b)) default_zero) as [Hlt | Hge].
  - split.
    + intros E. injection E as E. lra.
    + intros Hle. exfalso. rewrite He in Hlt.
      apply sqrt_lt_0_alt in Hlt.
      apply (Rmult_lt_compat_r b) in Hlt; [| exact Hb].
      replace (a / b * b) with a in Hlt by (field; lra). lra.
  - split; [intros _ | reflexivity].
    assert (Hle : / 10000000000000000 <= a / b).
    { destruct (Rle_dec (/ 10000000000000000) (a / b)) as [|Hn]; [assumption |].
      exfalso. apply Hge. rewrite He. apply sqrt_lt_1_alt. lra. }
    apply (Rmult_le_compat_r b) in Hle; [| lra].
    replace (a / b * b) with a in Hle by (field; lra). lra.
Qed.

Lemma guard_inactive_iff_witness :
  py_max (fpc (df_survey [2; 1; 2; 3; 2]%Z) 20) (Fin default_zero)
  = fpc (df_survey [2; 1; 2; 3; 2]%Z) 20
  <-> (20 - 1
       <= 10000000000000000 * (20 - survey_count (df_survey [2; 1; 2; 3; 2]%Z)))%Z.
Proof.
  apply guard_inactive_iff. vm_compute. split; discriminate.
Defined.

(** ** When an interval is [nan] *)

Lemma df_survey_five (c1 c2 c3 c4 c5 : Z) :
  df_survey [c1; c2; c3; c4; c5]
  = [ {| rating := 1; count := c1 |}; {| rating := 2; count := c2 |};
      {| rating := 3; count := c3 |}; {| rating := 4; count := c4 |};
      {| rating := 5; count := c5 |} ].
Proof.
  reflexivity.
Qed.

(** Of two rows with responses, one has a rating other than [m]. *)
Ltac two_rows pick m i ci j cj :=
  destruct (Req_dec_T m (IZR i));
  [ apply (pick j cj); [cbn; tauto | assumption | lra]
  | apply (pick i ci); [cbn; tauto | assumption | lra] ].

(** Some respondent's rating differs from [m], unless one level holds every
    response. *)
Lemma rating_off_mean_iff (c1 c2 c3 c4 c5 : Z) (m : R) :
  (0 <= c1)%Z -> (0 <= c2)%Z -> (0 <= c3)%Z -> (0 <= c4)%Z -> (0 <= c5)%Z ->
  let n := (c1 + c2 + c3 + c4 + c5)%Z in
  (1 <= n)%Z ->
  m * IZR n = IZR (1 * c1 + 2 * c2 + 3 * c3 + 4 * c4 + 5 * c5) ->
  ((exists r, In r (df_survey [c1; c2; c3; c4; c5]) /\
              (0 < count r)%Z /\ IZR (rating r) <> m)
   <-> ~ In n [c1; c2; c3; c4; c5]).
Proof.
  intros H1 H2 H3 H4 H5 n Hn Hm. rewrite df_survey_five.
  assert (Hnr : 0 < IZR n) by (apply IZR_lt; lia).
  split.
  - intros (r & Hin & Hc & Hne) Hall. apply Hne. clear Hne.
    apply Rmult_eq_reg_r with (IZR n); [| lra].
    rewrite Hm, <- mult_IZR. f_equal.
    cbn [In] in Hin, Hall.
    destruct Hin as [<- | [<- | [<- | [<- | [<- | []]]]]]; cbn [rating count] in *;
      unfold n in *; lia.
  - intros Hnot. cbn [In] in Hnot.
    assert (N1 : c1 <> n) by tauto. assert (N2 : c2 <> n) by tauto.
    assert (N3 : c3 <> n) by tauto. assert (N4 : c4 <> n) by tauto.
    assert (N5 : c5 <> n) by tauto. clear Hnot.
    assert (pick : forall k c, In {| rating := k; count := c |}
                      [ {| rating := 1; count := c1 |};
                        {| rating := 2; count := c2 |};
                        {| rating := 3; count := c3 |};
                        {| rating := 4; count := c4 |};
                        {| rating := 5; count := c5 |} ] ->
                    (0 < c)%Z -> IZR k <> m ->
                    exists r, In r [ {| rating := 1; count := c1 |};
                        {| rating := 2; count := c2 |};
                        {| rating := 3; count := c3 |};
                        {| rating := 4; count := c4 |};
                        {| rating := 5; count := c5 |} ] /\
                      (0 < count r)%Z /\ IZR (rating r) <> m).
    { intros k c Hin Hc Hk. exists {| rating := k; count := c |}. auto. }
    destruct (Z_lt_dec 0 c1) as [P1 | P1]; destruct (Z_lt_dec 0 c2) as [P2 | P2];
    destruct (Z_lt_dec 0 c3) as [P3 | P3]; destruct (Z_lt_dec 0 c4) as [P4 | P4];
    destruct (Z_lt_dec 0 c5) as [P5 | P5];
    try (exfalso; unfold n in *; lia);
    first [ solve [two_rows pick m 1%Z c1 2%Z c2]
          | solve [two_rows pick m 1%Z c1 3%Z c3]
          | solve [two_rows pick m 1%Z c1 4%Z c4]
          | solve [two_rows pick m 1%Z c1 5%Z c5]
          | solve [two_rows pick m 2%Z c2 3%Z c3]
          | solve [two_rows pick m 2%Z c2 4%Z c4]
          | solve [two_rows pick m 2%Z c2 5%Z c5]
          | solve [two_rows pick m 3%Z c3 4%Z c4]
          | solve [two_rows pick m 3%Z c3 5%Z c5]
          | solve [two_rows pick m 4%Z c4 5%Z c5] ].
Qed.

(** The score's standard error is positive unless one level holds every
    response. *)
Lemma se_score_pos_input (res_list : list Z) :
  well_formed res_list ->
  (2 <= survey_count (df_survey res_list))%Z ->
  (0 < Spec.se_score (df_survey res_list)
   <-> ~ In (survey_count (df_survey res_list)) res_list).
Proof.
  intros Hwf HN. unfold survey_count in *.
  pose proof (df_survey_rows res_list Hwf) as Hok.
  rewrite (se_score_pos_iff _ Hok HN).
  destruct (well_formed_inv _ Hwf)
    as (c1 & c2 & c3 & c4 & c5 & -> & H1 & H2 & H3 & H4 & H5).
  destruct (df_survey_sums c1 c2 c3 c4 c5) as (E1 & E2 & _).
  rewrite E1 in *.
  apply rating_off_mean_iff; try assumption; [lia |].
  rewrite score_rating_count_sum, E1, E2. field.
  apply not_0_IZR. lia.
Qed.

(** A pair of bounds is [nan] exactly when the scale is not positive. *)
Lemma ppf_pair_nan_iff (t_ppf : R -> Z -> R) (c : R) (df : Z) (m se : R) :
  0 < c < 1 -> (1 <= df)%Z -> 0 <= se ->
  (ppf_pair t_ppf c df (Fin m) (Fin se) = (NaN, NaN) <-> se = 0) /\
  (0 < se -> exists lo hi, ppf_pair t_ppf c df (Fin m) (Fin se)
                           = (Fin lo, Fin hi)).
Proof.
  intros Hc Hdf Hse. split.
  - destruct Hse as [Hpos | <-].
    + rewrite ppf_pair_fin by assumption. split; [discriminate | lra].
    + rewrite ppf_pair_bad_scale by (apply fgt_fin_false; lra). tauto.
  - intros Hpos. rewrite ppf_pair_fin by assumption. eauto.
Qed.

(** X9.  For at least two respondents, five times their number within
    [exact_int_max] (the sums then convert to [float64] without rounding,
    and a score on one level is that level exactly), and a confidence level
    strictly between 0 and 1, whatever the quantile routine returns: the
    score interval is [(nan, nan)] exactly when one rating level holds every
    response, and has two finite bounds otherwise. *)
Theorem score_interval_nan_iff (t_ppf : R -> Z -> R) (res_list : list Z)
    (c : R) (survey_total : Z) :
  well_formed res_list ->
  (2 <= survey_count (df_survey res_list))%Z ->
  (5 * survey_count (df_survey res_list) <= exact_int_max)%Z ->
  0 < c < 1 ->
  exists r,
    csat_calculator t_ppf res_list c survey_total = Ok r /\
    (score_ci r = (NaN, NaN)
     <-> In (survey_count (df_survey res_list)) res_list) /\
    (~ In (survey_count (df_survey res_list)) res_list ->
     exists lo hi, score_ci r = (Fin lo, Fin hi)).
Proof.
  intros Hwf HN _ Hc.
  rewrite csat_calculator_ok by lra. cbv zeta.
  eexists. split; [reflexivity |].
  cbn [score_ci].
  pose proof (df_survey_rows res_list Hwf) as Hok.
  pose proof (se_score_pos_input res_list Hwf HN) as Hiff.
  unfold survey_count in HN.
  rewrite csat_score_spec by lia.
  rewrite std_csat_score_spec by assumption.
  pose proof (se_score_nonneg (df_survey res_list)) as Hse.
  destruct (ppf_pair_nan_iff t_ppf c (degrees_freedom (df_survey res_list))
              (Spec.score (df_survey res_list))
              (Spec.se_score (df_survey res_list)) Hc) as [Hnan Hfin];
    [unfold degrees_freedom, survey_count; lia | exact Hse |].
  split.
  - rewrite Hnan. split.
    + intros Hz.
      destruct (in_dec Z.eq_dec (survey_count (df_survey res_list)) res_list)
        as [Hin | Hnin]; [exact Hin |].
      apply Hiff in Hnin. lra.
    + intros Hin. destruct Hse as [Hpos | Hz]; [| symmetry; exact Hz].
      apply Hiff in Hpos. contradiction.
  - intros Hnin. apply Hfin, Hiff, Hnin.
Qed.

Lemma score_interval_nan_iff_witness :
  exists r,
    csat_calculator (fun q _ => Student.quantile2 q) [2; 1; 2; 3; 2]%Z
                    (95 / 100) 10 = Ok r /\
    (score_ci r = (NaN, NaN)
     <-> In (survey_count (df_survey [2; 1; 2; 3; 2]%Z)) [2; 1; 2; 3; 2]%Z) /\
    (~ In (survey_count (df_survey [2; 1; 2; 3; 2]%Z)) [2; 1; 2; 3; 2]%Z ->
     exists lo hi, score_ci r = (Fin lo, Fin hi)).
Proof.
  apply score_interval_nan_iff;
    [wf_input | vm_compute; discriminate | vm_compute; discriminate | lra].
Defined.

(** X10.  For at least two and at most [exact_int_max] respondents (a
    larger number can round a percentage below 1 up to 1,
    [percent_rounds_to_one]) and a confidence level strictly between 0 and
    1, whatever the quantile routine returns: the percentage interval is
    [(nan, nan)] exactly when no respondent or every respondent rated four
    or five, and has two finite bounds otherwise. *)
Theorem percent_interval_nan_iff (t_ppf : R -> Z -> R) (res_list : list Z)
    (c : R) (survey_total : Z) :
  well_formed res_list ->
  (2 <= survey_count (df_survey res_list))%Z ->
  (survey_count (df_survey res_list) <= exact_int_max)%Z ->
  0 < c < 1 ->
  let df := df_survey res_list in
  exists r,
    csat_calculator t_ppf res_list c survey_total = Ok r /\
    (percent_ci r = (NaN, NaN)
     <-> top_box_sum df = 0%Z \/ top_box_sum df = survey_count df) /\
    ((0 < top_box_sum df < survey_count df)%Z ->
     exists lo hi, percent_ci r = (Fin lo, Fin hi)).
Proof.
  intros Hwf HN _ Hc df.
  rewrite csat_calculator_ok by lra. cbv zeta.
  eexists. split; [reflexivity |].
  cbn [percent_ci]. fold df.
  pose proof (df_survey_rows res_list Hwf) as Hok. fold df in Hok, HN.
  unfold survey_count in *.
  assert (HN1 : (1 <= count_sum df)%Z) by lia.
  pose proof (se_percent_pos_iff df Hok HN1) as Hiff.
  pose proof (top_box_sum_bounds df Hok) as Hb.
  rewrite csat_percent_spec by exact HN1.
  rewrite std_csat_percent_spec by assumption.
  pose proof (se_percent_nonneg df) as Hse.
  destruct (ppf_pair_nan_iff t_ppf c (degrees_freedom df)
              (Spec.percent 4 df) (Spec.se_percent 4 df) Hc) as [Hnan Hfin];
    [unfold degrees_freedom, survey_count; lia | exact Hse |].
  split.
  - rewrite Hnan. split.
    + intros Hz.
      destruct (Z.eq_dec (top_box_sum df) 0) as [|N0]; [left; assumption |].
      destruct (Z.eq_dec (top_box_sum df) (count_sum df)) as [|N1];
        [right; assumption |].
      assert (H : (0 < top_box_sum df < count_sum df)%Z) by lia.
      apply Hiff in H. lra.
    + intros Hor. destruct Hse as [Hpos | Hz]; [| symmetry; exact Hz].
      apply Hiff in Hpos. lia.
  - intros H. apply Hfin, Hiff, H.
Qed.

Lemma percent_interval_nan_iff_witness :
  let df := df_survey [2; 1; 2; 3; 2]%Z in
  exists r,
    csat_calculator (fun q _ => Student.quantile2 q) [2; 1; 2; 3; 2]%Z
                    (95 / 100) 10 = Ok r /\
    (percent_ci r = (NaN, NaN)
     <-> top_box_sum df = 0%Z \/ top_box_sum df = survey_count df) /\
    ((0 < top_box_sum df < survey_count df)%Z ->
     exists lo hi, percent_ci r = (Fin lo, Fin hi)).
Proof.
  apply percent_interval_nan_iff;
    [wf_input | vm_compute; discriminate | vm_compute; discriminate | lra].
Defined.

(** ** The four intervals of one report *)

(** X11.  For at least two respondents, a total of at least that number, a
    confidence level strictly between 0 and 1 and an exact quantile routine:
    unless one level holds every response, the four bounds of the score are
    finite, the corrected interval lies within the uncorrected one, and the
    score lies within both; the same holds for the percentage when some but
    not all of at most [exact_int_max] respondents rated four or five.  (The
    inclusions are not strict: a corrected bound can be rounded to the point
    estimate.) *)
Theorem intervals_nested (t_ppf : R -> Z -> R) (res_list : list Z)
    (c : R) (survey_total : Z) :
  let df := df_survey res_list in
  well_formed res_list ->
  (2 <= survey_count df)%Z -> (survey_count df <= survey_total)%Z ->
  0 < c < 1 ->
  Student.quantile_ok t_ppf c (degrees_freedom df) ->
  exists r,
  csat_calculator t_ppf res_list c survey_total = Ok r /\
  (~ In (survey_count df) res_list ->
   exists s lo hi lo' hi',
     score r = Fin s /\ score_ci r = (Fin lo, Fin hi) /\
     score_ci_fpc r = (Fin lo', Fin hi') /\
     lo <= lo' /\ lo' <= s /\ s <= hi' /\ hi' <= hi) /\
  ((0 < top_box_sum df < survey_count df)%Z ->
   (survey_count df <= exact_int_max)%Z ->
   exists p lo hi lo' hi',
     percent r = Fin p /\ percent_ci r = (Fin lo, Fin hi) /\
     percent_ci_fpc r = (Fin lo', Fin hi') /\
     lo <= lo' /\ lo' <= p /\ p <= hi' /\ hi' <= hi).
Proof.
  intros df Hwf HN Hpop Hc Hq.
  destruct (report_exists t_ppf res_list c survey_total Hc) as [r E].
  exists r. split; [exact E |].
  pose proof (df_survey_rows res_list Hwf) as Hok. fold df in Hok.
  destruct (fpc_guarded df survey_total) as (k & Ek & [Hk0 Hk1] & _); [lia |].
  destruct (report_uncorrected t_ppf res_list c _ Hwf HN Hc Hq r E)
    as (Hs & Hp & Hsci & Hpci).
  destruct (report_corrected t_ppf res_list c _ Hwf HN Hc Hq r _ Ek Hk0 E)
    as [Hsf Hpf].
  pose proof (report_crit_pos t_ppf res_list c HN Hc Hq) as Ht.
  fold df in Hs, Hp, Hsci, Hpci, Hsf, Hpf, Ht.
  split.
  - intros Hnin. apply (se_score_pos_input res_list Hwf HN) in Hnin.
    fold df in Hnin.
    do 5 eexists. split; [exact Hs |]. split; [exact (Hsci Hnin) |].
    split; [exact (Hsf Hnin) |].
    apply scaled_within; [assumption | assumption | lra].
  - intros Htb _.
    assert (Hpos : 0 < Spec.se_percent 4 df).
    { apply se_percent_pos_iff; [exact Hok | unfold survey_count in HN; lia |].
      exact Htb. }
    do 5 eexists. split; [exact Hp |]. split; [exact (Hpci Hpos) |].
    split; [exact (Hpf Hpos) |].
    apply scaled_within; [assumption | assumption | lra].
Qed.

Lemma intervals_nested_witness :
  let t_ppf := fun (q : R) (_ : Z) => Student.quantile2 q in
  let df := df_survey [0; 0; 1; 1; 1]%Z in
  exists r,
  csat_calculator t_ppf [0; 0; 1; 1; 1]%Z (95 / 100) 30 = Ok r /\
  (~ In (survey_count df) [0; 0; 1; 1; 1]%Z ->
   exists s lo hi lo' hi',
     score r = Fin s /\ score_ci r = (Fin lo, Fin hi) /\
     score_ci_fpc r = (Fin lo', Fin hi') /\
     lo <= lo' /\ lo' <= s /\ s <= hi' /\ hi' <= hi) /\
  ((0 < top_box_sum df < survey_count df)%Z ->
   (survey_count df <= exact_int_max)%Z ->
   exists p lo hi lo' hi',
     percent r = Fin p /\ percent_ci r = (Fin lo, Fin hi) /\
     percent_ci_fpc r = (Fin lo', Fin hi') /\
     lo <= lo' /\ lo' <= p /\ p <= hi' /\ hi' <= hi).
Proof.
  intros t_ppf df.
  apply (intervals_nested t_ppf [0; 0; 1; 1; 1]%Z (95 / 100) 30).
  - wf_input.
  - vm_compute. discriminate.
  - vm_compute. discriminate.
  - lra.
  - apply quantile2_ok; [lra | reflexivity].
Defined.

(** ** Integer range *)

(** X12.  When no count and no total exceeds [2^53 - 1], every integer the
    script computes (the products [rating * count], the three sums, the
    degrees of freedom and the two differences under the correction factor)
    lies in the [int64] range. *)
Theorem no_int64_overflow (res_list : list Z) (survey_total : Z) :
  well_formed res_list ->
  Forall (fun c => (c <= widget_max)%Z) res_list ->
  (0 <= survey_total <= widget_max)%Z ->
  let df := df_survey res_list in
  Forall (fun r => in_int64 (rating r * count r)) df /\
  in_int64 (rating_count_sum df) /\ in_int64 (count_sum df) /\
  in_int64 (top_box_sum df) /\ in_int64 (degrees_freedom df) /\
  in_int64 (survey_total - survey_count df) /\ in_int64 (survey_total - 1).
Proof.
  intros Hwf Hub Htot df.
  destruct (well_formed_inv _ Hwf)
    as (c1 & c2 & c3 & c4 & c5 & -> & H1 & H2 & H3 & H4 & H5).
  repeat match goal with
         | H : Forall _ (_ :: _) |- _ => inversion H; subst; clear H
         end.
  destruct (df_survey_sums c1 c2 c3 c4 c5) as (E1 & E2 & E3).
  fold df in E1, E2, E3.
  unfold in_int64, degrees_freedom, survey_count. rewrite E1, E2, E3.
  unfold df. rewrite df_survey_five.
  unfold widget_max, int64_min, int64_max in *.
  change (2 ^ 53 - 1)%Z with 9007199254740991%Z in *.
  change (- 2 ^ 63)%Z with (-9223372036854775808)%Z.
  change (2 ^ 63 - 1)%Z with 9223372036854775807%Z.
  split; [repeat constructor; cbn [rating count]; lia |].
  repeat split; lia.
Qed.

Lemma no_int64_overflow_witness :
  let df := df_survey [2; 1; 2; 3; 2]%Z in
  Forall (fun r => in_int64 (rating r * count r)) df /\
  in_int64 (rating_count_sum df) /\ in_int64 (count_sum df) /\
  in_int64 (top_box_sum df) /\ in_int64 (degrees_freedom df) /\
  in_int64 (10 - survey_count df) /\ in_int64 (10 - 1).
Proof.
  apply (no_int64_overflow [2; 1; 2; 3; 2]%Z 10).
  - wf_input.
  - repeat constructor; vm_compute; discriminate.
  - vm_compute. split; discriminate.
Defined.
